(** * Kitchen stations and their manager

    A shallow embedding of [KitchenStation.cpp] and [StationManager.cpp]:
    the stock accounting of one station (replenish, feasibility check,
    preparation) and the manager's name-addressed operations on an ordered
    sequence of station pointers (find, remove, move to front, merge).

    Conventions of the embedding.
    - A C++ [int] is a [Z]; [+=] and [-=] are written with the 32-bit
      two's-complement wrap-around that compiled code exhibits.
    - A pointer is an address ([N], [nullptr] being 0).  Dish objects live
      in a store [addr -> Dish] that the station code only reads; station
      objects live in a store [addr -> KitchenStation.t] that the manager
      updates in place, so two occurrences of one pointer alias.
    - The stores are total: every pointer the code dereferences is taken to
      designate an object.  [delete] is recorded in a log of released
      addresses and the stores keep the last value of a released object. *)

From Stdlib Require Import List String ZArith Lia Bool.
From Stdlib Require Import Ascii Permutation.
Import ListNotations.

Local Open Scope Z_scope.

(** ** Machine integers *)

Module Int.

Definition min_int : Z := -2147483648.
Definition max_int : Z := 2147483647.

Definition in_range (z : Z) : Prop := min_int <= z <= max_int.

(** Reduction of a mathematical integer to the [int] it is stored as. *)
Definition wrap (z : Z) : Z := (z + 2147483648) mod 4294967296 - 2147483648.

Definition add (a b : Z) : Z := wrap (a + b).
Definition sub (a b : Z) : Z := wrap (a - b).

End Int.

(** ** Data model *)

Definition addr := N.
Definition nullptr : addr := 0%N.

(** A [double] is only ever copied by the code below; it is carried as its
    IEEE-754 binary64 bit pattern. *)
Definition double := Z.

(** Modelled from the spec: the [Ingredient] structure is declared in
    [Dish.hpp], which is not part of the sources at hand.  The spec gives its
    four attributes (name, quantity on hand, quantity required per use, unit
    price); [main.cpp] builds one as [Ingredient("Tomato", 20, 2, 0.5)]. *)
Record Ingredient : Type := mkIngredient {
  name : string;
  quantity : Z;
  required_quantity : Z;
  price : double
}.

Definition set_quantity (i : Ingredient) (q : Z) : Ingredient :=
  mkIngredient (name i) q (required_quantity i) (price i).

Inductive CuisineType : Type :=
  ITALIAN | MEXICAN | CHINESE | INDIAN | AMERICAN | FRENCH | OTHER.

(** The private members of [Dish] as [Dish.cpp] initialises them. *)
Record Dish : Type := mkDish {
  name_ : string;
  ingredients_ : list Ingredient;
  prep_time_ : Z;
  price_ : double;
  cuisine_type_ : CuisineType
}.

(** The dish objects reachable through [Dish*]. *)
Definition DishStore := addr -> Dish.

(** ** KitchenStation *)

Module KitchenStation.

Record t : Type := mk {
  station_name_ : string;
  dishes_ : list addr;
  ingredients_stock_ : list Ingredient
}.

Definition getName (s : t) : string := station_name_ s.
Definition getDishes (s : t) : list addr := dishes_ s.
Definition getIngredientsStock (s : t) : list Ingredient := ingredients_stock_ s.

Definition setName (s : t) (n : string) : t :=
  mk n (dishes_ s) (ingredients_stock_ s).

Definition set_stock (s : t) (stock : list Ingredient) : t :=
  mk (station_name_ s) (dishes_ s) stock.

(** [assignDishToStation]: the scan compares pointers, never dish fields. *)
Fixpoint already_assigned (dishes : list addr) (dish : addr) : bool :=
  match dishes with
  | [] => false
  | assigned_dish :: rest =>
      if N.eqb assigned_dish dish then true else already_assigned rest dish
  end.

Definition assignDishToStation (s : t) (dish : addr) : bool * t :=
  if already_assigned (dishes_ s) dish then (false, s)
  else (true, mk (station_name_ s) (dishes_ s ++ [dish]) (ingredients_stock_ s)).

(** [replenishStationIngredients]: the loop updates the first entry of the
    same name and returns; falling out of the loop is the [push_back]. *)
Fixpoint replenish_stock (stock : list Ingredient) (ingredient : Ingredient)
  : list Ingredient :=
  match stock with
  | [] => [ingredient]
  | stock_ingredient :: rest =>
      if String.eqb (name stock_ingredient) (name ingredient)
      then set_quantity stock_ingredient
             (Int.add (quantity stock_ingredient) (quantity ingredient)) :: rest
      else stock_ingredient :: replenish_stock rest ingredient
  end.

Definition replenishStationIngredients (s : t) (ingredient : Ingredient) : t :=
  set_stock s (replenish_stock (ingredients_stock_ s) ingredient).

(** [canCompleteOrder]: the innermost loop looks for one stock entry that
    has the ingredient's name and enough quantity. *)
Fixpoint found_in_stock (stock : list Ingredient) (ingredient : Ingredient) : bool :=
  match stock with
  | [] => false
  | stock_ingredient :: rest =>
      if String.eqb (name stock_ingredient) (name ingredient)
         && (required_quantity ingredient <=? quantity stock_ingredient)
      then true
      else found_in_stock rest ingredient
  end.

Fixpoint all_found (stock : list Ingredient) (ingredients : list Ingredient) : bool :=
  match ingredients with
  | [] => true
  | ingredient :: rest =>
      if found_in_stock stock ingredient then all_found stock rest else false
  end.

Fixpoint canComplete_scan (D : DishStore) (stock : list Ingredient)
         (dishes : list addr) (dish_name : string) : bool :=
  match dishes with
  | [] => false
  | dish :: rest =>
      if String.eqb (name_ (D dish)) dish_name
      then all_found stock (ingredients_ (D dish))
      else canComplete_scan D stock rest dish_name
  end.

Definition canCompleteOrder (D : DishStore) (s : t) (dish_name : string) : bool :=
  canComplete_scan D (ingredients_stock_ s) (dishes_ s) dish_name.

(** [prepareDish]: the decrement of the first stock entry that has the
    dish ingredient's name, clamped at 0, then [break]. *)
Definition clamp (q : Z) : Z := if q <=? 0 then 0 else q.

Fixpoint use_ingredient (stock : list Ingredient) (dish_ingredient : Ingredient)
  : list Ingredient :=
  match stock with
  | [] => []
  | stock_ingredient :: rest =>
      if String.eqb (name dish_ingredient) (name stock_ingredient)
      then set_quantity stock_ingredient
             (clamp (Int.sub (quantity stock_ingredient)
                             (required_quantity dish_ingredient))) :: rest
      else stock_ingredient :: use_ingredient rest dish_ingredient
  end.

Fixpoint use_ingredients (stock : list Ingredient) (dish_ingredients : list Ingredient)
  : list Ingredient :=
  match dish_ingredients with
  | [] => stock
  | dish_ingredient :: rest =>
      use_ingredients (use_ingredient stock dish_ingredient) rest
  end.

(** The outer loop has no [break]: every roster dish of that name is used. *)
Fixpoint use_dishes (D : DishStore) (stock : list Ingredient)
         (dishes : list addr) (dish_name : string) : list Ingredient :=
  match dishes with
  | [] => stock
  | dish :: rest =>
      if String.eqb (name_ (D dish)) dish_name
      then use_dishes D (use_ingredients stock (ingredients_ (D dish))) rest dish_name
      else use_dishes D stock rest dish_name
  end.

(** [erase(remove_if(..., quantity == 0))] keeps the other entries in order. *)
Definition remove_depleted (stock : list Ingredient) : list Ingredient :=
  filter (fun ingredient => negb (quantity ingredient =? 0)) stock.

Definition prepareDish (D : DishStore) (s : t) (dish_name : string) : bool * t :=
  if negb (canCompleteOrder D s dish_name) then (false, s)
  else
    (true,
     set_stock s
       (remove_depleted
          (use_dishes D (ingredients_stock_ s) (dishes_ s) dish_name))).

(** The two constructors: the name, an empty roster and an empty stock. *)
Definition default_constructor : t := mk "UNKNOWN"%string [] [].
Definition constructor (station_name : string) : t := mk station_name [] [].

End KitchenStation.

(** ** The ordered list underneath the manager *)

Module LinkedList.

(** Modelled from the spec: [StationManager] derives from
    [LinkedList<KitchenStation*>], whose source is not at hand.  The spec
    describes it as an ordered sequence with a length query and indexed
    get, insert and remove, insertion order being kept. *)
Definition getLength (l : list addr) : nat := List.length l.

Definition getEntry (l : list addr) (position : nat) : option addr :=
  nth_error l position.

Definition insert (l : list addr) (position : nat) (item : addr)
  : bool * list addr :=
  if (position <=? List.length l)%nat
  then (true, firstn position l ++ item :: skipn position l)
  else (false, l).

Definition remove (l : list addr) (position : nat) : bool * list addr :=
  if (position <? List.length l)%nat
  then (true, firstn position l ++ skipn (S position) l)
  else (false, l).

End LinkedList.

(** ** StationManager *)

Module StationManager.

(** The manager together with the station objects its pointers designate. *)
Record t : Type := mk {
  stations : addr -> KitchenStation.t;
  items : list addr;
  deleted_stations : list addr;
  deleted_dishes : list addr
}.

Definition set_items (m : t) (l : list addr) : t :=
  mk (stations m) l (deleted_stations m) (deleted_dishes m).

(** Assignment through a station pointer. *)
Definition store (m : t) (station : addr) (s : KitchenStation.t) : t :=
  mk (fun a => if N.eqb a station then s else stations m a)
     (items m) (deleted_stations m) (deleted_dishes m).

(** [delete station]: the destructor deletes every dish of the roster. *)
Definition delete_station (m : t) (station : addr) : t :=
  mk (stations m) (items m)
     (station :: deleted_stations m)
     (KitchenStation.dishes_ (stations m station) ++ deleted_dishes m).

(** The test [station && station->getName() == station_name]. *)
Definition is_named (m : t) (station : addr) (station_name : string) : bool :=
  negb (N.eqb station nullptr)
  && String.eqb (KitchenStation.getName (stations m station)) station_name.

Definition addStation (m : t) (station : addr) : bool * t :=
  let (ok, l) := LinkedList.insert (items m) (LinkedList.getLength (items m)) station in
  (ok, set_items m l).

(** The three loops [for (int i = 0; i < getLength(); i++)] carry the
    number of iterations left and the index [i]. *)
Fixpoint removeStation_loop (m : t) (station_name : string) (left i : nat)
  : bool * t :=
  match left with
  | O => (false, m)
  | S left' =>
      match LinkedList.getEntry (items m) i with
      | Some station =>
          if is_named m station station_name
          then
            let m1 := delete_station m station in
            let (ok, l) := LinkedList.remove (items m1) i in
            (ok, set_items m1 l)
          else removeStation_loop m station_name left' (S i)
      | None => removeStation_loop m station_name left' (S i)
      end
  end.

Definition removeStation (m : t) (station_name : string) : bool * t :=
  removeStation_loop m station_name (LinkedList.getLength (items m)) 0.

Fixpoint findStation_loop (m : t) (station_name : string) (left i : nat) : addr :=
  match left with
  | O => nullptr
  | S left' =>
      match LinkedList.getEntry (items m) i with
      | Some station =>
          if is_named m station station_name then station
          else findStation_loop m station_name left' (S i)
      | None => findStation_loop m station_name left' (S i)
      end
  end.

Definition findStation (m : t) (station_name : string) : addr :=
  findStation_loop m station_name (LinkedList.getLength (items m)) 0.

Fixpoint moveStationToFront_loop (m : t) (station_name : string) (left i : nat)
  : bool * t :=
  match left with
  | O => (false, m)
  | S left' =>
      match LinkedList.getEntry (items m) i with
      | Some station =>
          if is_named m station station_name
          then
            let (_, l1) := LinkedList.remove (items m) i in
            let (ok, l2) := LinkedList.insert l1 0 station in
            (ok, set_items m l2)
          else moveStationToFront_loop m station_name left' (S i)
      | None => moveStationToFront_loop m station_name left' (S i)
      end
  end.

Definition moveStationToFront (m : t) (station_name : string) : bool * t :=
  moveStationToFront_loop m station_name (LinkedList.getLength (items m)) 0.

(** The two loops of [mergeStations] over copies of station 2's members. *)
Fixpoint assign_all (s : KitchenStation.t) (dishes : list addr) : KitchenStation.t :=
  match dishes with
  | [] => s
  | dish :: rest =>
      assign_all (snd (KitchenStation.assignDishToStation s dish)) rest
  end.

Fixpoint replenish_all (s : KitchenStation.t) (ingredients : list Ingredient)
  : KitchenStation.t :=
  match ingredients with
  | [] => s
  | ingredient :: rest =>
      replenish_all (KitchenStation.replenishStationIngredients s ingredient) rest
  end.

Definition mergeStations (m : t) (station_name1 station_name2 : string)
  : bool * t :=
  let station1 := findStation m station_name1 in
  let station2 := findStation m station_name2 in
  if negb (N.eqb station1 nullptr) && negb (N.eqb station2 nullptr)
     && negb (N.eqb station1 station2)
  then
    let s1 := assign_all (stations m station1)
                (KitchenStation.getDishes (stations m station2)) in
    let s1' := replenish_all s1
                 (KitchenStation.getIngredientsStock (stations m station2)) in
    let m1 := store m station1 s1' in
    (true, snd (removeStation m1 station_name2))
  else (false, m).

Definition assignDishToStation (m : t) (station_name : string) (dish : addr)
  : bool * t :=
  let station := findStation m station_name in
  if negb (N.eqb station nullptr)
  then
    let (ok, s) := KitchenStation.assignDishToStation (stations m station) dish in
    (ok, store m station s)
  else (false, m).

Definition replenishIngredientAtStation (m : t) (station_name : string)
           (ingredient : Ingredient) : bool * t :=
  let station := findStation m station_name in
  if negb (N.eqb station nullptr)
  then
    (true, store m station
             (KitchenStation.replenishStationIngredients (stations m station) ingredient))
  else (false, m).

Fixpoint canCompleteOrder_loop (D : DishStore) (m : t) (dish_name : string)
         (left i : nat) : bool :=
  match left with
  | O => false
  | S left' =>
      match LinkedList.getEntry (items m) i with
      | Some station =>
          if negb (N.eqb station nullptr)
             && KitchenStation.canCompleteOrder D (stations m station) dish_name
          then true
          else canCompleteOrder_loop D m dish_name left' (S i)
      | None => canCompleteOrder_loop D m dish_name left' (S i)
      end
  end.

Definition canCompleteOrder (D : DishStore) (m : t) (dish_name : string) : bool :=
  canCompleteOrder_loop D m dish_name (LinkedList.getLength (items m)) 0.

Definition prepareDishAtStation (D : DishStore) (m : t)
           (station_name dish_name : string) : bool * t :=
  let station := findStation m station_name in
  if negb (N.eqb station nullptr)
  then
    let (ok, s) := KitchenStation.prepareDish D (stations m station) dish_name in
    (ok, store m station s)
  else (false, m).

(** The constructor: an empty list, over the station objects that exist. *)
Definition constructor (objects : addr -> KitchenStation.t) : t :=
  mk objects [] [] [].

End StationManager.

(** ** Vocabulary of the statements *)

Local Open Scope string_scope.
Local Open Scope list_scope.

Definition stock_names (stock : list Ingredient) : list string := map name stock.

(** The first stock entry of a given name, which is the one the loops of
    [replenishStationIngredients] and [prepareDish] stop at. *)
Definition stock_entry (n : string) (stock : list Ingredient) : option Ingredient :=
  find (fun i => String.eqb (name i) n) stock.

Definition stock_quantity (n : string) (stock : list Ingredient) : option Z :=
  option_map quantity (stock_entry n stock).

(** The quantity held under one name, summed in [int] arithmetic over all
    the entries of that name. *)
Fixpoint stock_total (n : string) (stock : list Ingredient) : Z :=
  match stock with
  | [] => 0
  | i :: rest =>
      if String.eqb (name i) n
      then Int.add (quantity i) (stock_total n rest)
      else stock_total n rest
  end.

(** A dish ingredient is satisfied by a stock: some entry has its name and
    at least the required quantity. *)
Definition satisfied (stock : list Ingredient) (ingredient : Ingredient) : Prop :=
  exists si, In si stock /\ name si = name ingredient
             /\ required_quantity ingredient <= quantity si.

(** Some roster dish has the name and all its ingredients are satisfied. *)
Definition some_dish_feasible (D : DishStore) (s : KitchenStation.t) (d : string) : Prop :=
  exists dish, In dish (KitchenStation.dishes_ s) /\ name_ (D dish) = d
    /\ forall ing, In ing (ingredients_ (D dish)) ->
                   satisfied (KitchenStation.ingredients_stock_ s) ing.

(** The first roster dish of that name exists and all its ingredients are
    satisfied. *)
Definition first_dish_feasible (D : DishStore) (s : KitchenStation.t) (d : string) : Prop :=
  exists before dish after,
    KitchenStation.dishes_ s = before ++ dish :: after
    /\ (forall x, In x before -> name_ (D x) <> d)
    /\ name_ (D dish) = d
    /\ forall ing, In ing (ingredients_ (D dish)) ->
                   satisfied (KitchenStation.ingredients_stock_ s) ing.

(** The stock entry of a required ingredient went down by exactly the
    required quantity: it is in the new stock with the difference, or gone
    when the difference is 0. *)
Definition reduced_by_required (before after : list Ingredient) (ing : Ingredient) : Prop :=
  exists si, In si before /\ name si = name ing
    /\ ((quantity si - required_quantity ing = 0
         /\ forall x, In x after -> name x <> name ing)
        \/ (quantity si - required_quantity ing <> 0
            /\ In (set_quantity si (quantity si - required_quantity ing)) after)).

Definition prepared (D : DishStore) (s s' : KitchenStation.t) (d : string) : Prop :=
  (forall dish, In dish (KitchenStation.dishes_ s) -> name_ (D dish) = d ->
     forall ing, In ing (ingredients_ (D dish)) ->
       reduced_by_required (KitchenStation.ingredients_stock_ s)
                           (KitchenStation.ingredients_stock_ s') ing)
  /\ (forall x, In x (KitchenStation.ingredients_stock_ s') -> quantity x <> 0).

(** The roster holds exactly one dish of that name. *)
Definition sole_dish (D : DishStore) (s : KitchenStation.t) (d : string) (dish : addr) : Prop :=
  exists before after,
    KitchenStation.dishes_ s = before ++ dish :: after
    /\ name_ (D dish) = d
    /\ forall x, In x (before ++ after) -> name_ (D x) <> d.

Definition nonnegative_stock (stock : list Ingredient) : Prop :=
  Forall (fun i => 0 <= quantity i) stock.

(** A sequence of [prepareDish] calls on one station, results dropped. *)
Fixpoint prepare_all (D : DishStore) (s : KitchenStation.t) (orders : list string)
  : KitchenStation.t :=
  match orders with
  | [] => s
  | d :: rest => prepare_all D (snd (KitchenStation.prepareDish D s d)) rest
  end.

(** How many entries of the sequence designate a station of that name. *)
Definition count_named (m : StationManager.t) (n : string) : nat :=
  List.length (filter (fun p => StationManager.is_named m p n) (StationManager.items m)).

(** The quantities of all the entries of one name, in stock order. *)
Definition quantities_named (n : string) (stock : list Ingredient) : list Z :=
  map quantity (filter (fun i => String.eqb (name i) n) stock).

(** Folding incoming quantities onto what is held under a name: each one is
    added, in [int] arithmetic, to the quantity held, and the first one
    starts the holding when there was none. *)
Definition add_onto (held : option Z) (q : Z) : option Z :=
  Some match held with
       | Some a => Int.add a q
       | None => q
       end.

Definition name_wise_sum (held : option Z) (incoming : list Z) : option Z :=
  fold_left add_onto incoming held.

(** The first station after the two loops of [mergeStations] have run on it. *)
Definition merged (m : StationManager.t) (station1 station2 : addr) : KitchenStation.t :=
  StationManager.replenish_all
    (StationManager.assign_all (StationManager.stations m station1)
       (KitchenStation.getDishes (StationManager.stations m station2)))
    (KitchenStation.getIngredientsStock (StationManager.stations m station2)).

(** A sequence without its first element that passes a test. *)
Fixpoint remove_first (f : addr -> bool) (l : list addr) : list addr :=
  match l with
  | [] => []
  | p :: rest => if f p then rest else p :: remove_first f rest
  end.

(** ** Sample data, after [main.cpp] *)

Module Sample.

Definition half : double := 4602678819172646912.
Definition three_tenths : double := 4599075939470750515.

Definition tomato (q rq : Z) : Ingredient := mkIngredient "Tomato" q rq half.
Definition lettuce (q rq : Z) : Ingredient := mkIngredient "Lettuce" q rq three_tenths.

Definition unknown_dish : Dish := mkDish "UNKNOWN" [] 0 0 OTHER.

Definition sandwich : Dish :=
  mkDish "Grilled Chicken Sandwich" [tomato 20 2; lettuce 15 1] 15 0 AMERICAN.
Definition soup : Dish := mkDish "Soup" [tomato 0 2] 10 0 FRENCH.
Definition cold_soup : Dish := mkDish "Soup" [] 5 0 FRENCH.
Definition salad : Dish := mkDish "Salad" [tomato 0 2; tomato 0 2] 5 0 ITALIAN.

Definition dishes : DishStore :=
  fun a => match a with
           | 1%N => sandwich
           | 2%N => soup
           | 3%N => cold_soup
           | 4%N => salad
           | _ => unknown_dish
           end.

Definition grill : KitchenStation.t :=
  KitchenStation.mk "Grill Station" [1%N] [tomato 30 0; lettuce 20 0].
Definition prep : KitchenStation.t :=
  KitchenStation.mk "Prep Station" [2%N; 3%N] [tomato 5 0].
Definition dessert : KitchenStation.t :=
  KitchenStation.mk "Dessert Station" [] [].
Definition salad_bar : KitchenStation.t :=
  KitchenStation.mk "Salad Bar" [4%N] [tomato 3 0].
Definition second_prep : KitchenStation.t :=
  KitchenStation.mk "Prep Station" [] [].
Definition pantry : KitchenStation.t :=
  KitchenStation.mk "Pantry" [2%N; 3%N] [tomato 1 0].

Definition objects : addr -> KitchenStation.t :=
  fun a => match a with
           | 10%N => grill
           | 20%N => prep
           | 30%N => dessert
           | 40%N => second_prep
           | _ => KitchenStation.mk "UNKNOWN" [] []
           end.

Definition manager : StationManager.t :=
  StationManager.mk objects [10%N; 20%N; 30%N] [] [].

Definition manager_two_preps : StationManager.t :=
  StationManager.mk objects [10%N; 20%N; 40%N] [] [].

(** The calls of [main.cpp], in order, from three freshly built stations;
    the answers of the calls it prints and the state before [clear]. *)
Definition fresh : addr -> KitchenStation.t :=
  fun a => match a with
           | 10%N => KitchenStation.mk "Grill Station" [] []
           | 20%N => KitchenStation.mk "Prep Station" [] []
           | 30%N => KitchenStation.mk "Dessert Station" [] []
           | _ => KitchenStation.mk "UNKNOWN" [] []
           end.

Definition main_run : addr * bool * bool * StationManager.t :=
  let m := StationManager.mk fresh [] [] [] in
  let m := snd (StationManager.addStation m 10%N) in
  let m := snd (StationManager.addStation m 20%N) in
  let m := snd (StationManager.addStation m 30%N) in
  let foundStation := StationManager.findStation m "Grill Station" in
  let m := snd (StationManager.assignDishToStation m "Grill Station" 1%N) in
  let m := snd (StationManager.replenishIngredientAtStation m "Grill Station"
                  (tomato 30 0)) in
  let m := snd (StationManager.replenishIngredientAtStation m "Grill Station"
                  (lettuce 20 0)) in
  let m := snd (StationManager.moveStationToFront m "Dessert Station") in
  let m := snd (StationManager.mergeStations m "Grill Station" "Prep Station") in
  let canCompleteOrder :=
    StationManager.canCompleteOrder dishes m "Grilled Chicken Sandwich" in
  let (dishPrepared, m) :=
    StationManager.prepareDishAtStation dishes m "Grill Station"
      "Grilled Chicken Sandwich" in
  let m := snd (StationManager.removeStation m "Dessert Station") in
  (foundStation, canCompleteOrder, dishPrepared, m).

End Sample.

(** ** Dish *)

Module DishOps.

(** [std::isalpha] and [std::isspace] of [<cctype>] in the "C" locale, which
    is the one in force since the program never calls [setlocale]: the 52
    letters, and the space with the five controls from tab to carriage
    return.  A [char] is read as its byte. *)
Definition isalpha (c : ascii) : bool :=
  let n := N_of_ascii c in
  ((65 <=? n)%N && (n <=? 90)%N) || ((97 <=? n)%N && (n <=? 122)%N).

Definition isspace (c : ascii) : bool :=
  let n := N_of_ascii c in
  (n =? 32)%N || ((9 <=? n)%N && (n <=? 13)%N).

Fixpoint isValidName (name : string) : bool :=
  match name with
  | EmptyString => true
  | String c rest =>
      if negb (isalpha c) && negb (isspace c) then false else isValidName rest
  end.

Definition getName (d : Dish) : string := name_ d.
Definition getIngredients (d : Dish) : list Ingredient := ingredients_ d.
Definition getPrepTime (d : Dish) : Z := prep_time_ d.
Definition getPrice (d : Dish) : double := price_ d.

Definition getCuisineType (d : Dish) : string :=
  match cuisine_type_ d with
  | ITALIAN => "ITALIAN"
  | MEXICAN => "MEXICAN"
  | CHINESE => "CHINESE"
  | INDIAN => "INDIAN"
  | AMERICAN => "AMERICAN"
  | FRENCH => "FRENCH"
  | OTHER => "OTHER"
  end.

Definition setName (d : Dish) (name : string) : Dish :=
  if isValidName name
  then mkDish name (ingredients_ d) (prep_time_ d) (price_ d) (cuisine_type_ d)
  else mkDish "UNKNOWN" (ingredients_ d) (prep_time_ d) (price_ d) (cuisine_type_ d).

Definition setIngredients (d : Dish) (ingredients : list Ingredient) : Dish :=
  mkDish (name_ d) ingredients (prep_time_ d) (price_ d) (cuisine_type_ d).

Definition setPrepTime (d : Dish) (prep_time : Z) : Dish :=
  mkDish (name_ d) (ingredients_ d) prep_time (price_ d) (cuisine_type_ d).

Definition setPrice (d : Dish) (price : double) : Dish :=
  mkDish (name_ d) (ingredients_ d) (prep_time_ d) price (cuisine_type_ d).

Definition setCuisineType (d : Dish) (cuisine_type : CuisineType) : Dish :=
  mkDish (name_ d) (ingredients_ d) (prep_time_ d) (price_ d) cuisine_type.

(** The default constructor; 0 is the bit pattern of the price 0.0. *)
Definition default_constructor : Dish := mkDish "UNKNOWN" [] 0 0 OTHER.

(** The parameterized constructor: the member initialisers leave the name
    empty, then [setName] validates the given one. *)
Definition constructor (name : string) (ingredients : list Ingredient)
           (prep_time : Z) (price : double) (cuisine_type : CuisineType) : Dish :=
  setName (mkDish "" ingredients prep_time price cuisine_type) name.

(** [==] on two [double]s, read off their bit patterns: a NaN (exponent
    all ones, fraction not 0) equals nothing, the two zeros equal each
    other, and otherwise the patterns must be the same. *)
Definition double_bits (x : double) : Z := x mod 18446744073709551616.

Definition double_is_nan (x : double) : bool :=
  ((double_bits x / 4503599627370496) mod 2048 =? 2047)%Z
  && negb (double_bits x mod 4503599627370496 =? 0)%Z.

Definition double_is_zero (x : double) : bool :=
  (double_bits x mod 9223372036854775808 =? 0)%Z.

Definition double_eq (x y : double) : bool :=
  negb (double_is_nan x) && negb (double_is_nan y)
  && ((double_bits x =? double_bits y)%Z
      || (double_is_zero x && double_is_zero y)).

Definition CuisineType_eq (a b : CuisineType) : bool :=
  match a, b with
  | ITALIAN, ITALIAN | MEXICAN, MEXICAN | CHINESE, CHINESE | INDIAN, INDIAN
  | AMERICAN, AMERICAN | FRENCH, FRENCH | OTHER, OTHER => true
  | _, _ => false
  end.

(** [operator==] and [operator!=]. *)
Definition equal (d rhs : Dish) : bool :=
  String.eqb (name_ d) (name_ rhs)
  && (prep_time_ d =? prep_time_ rhs)%Z
  && double_eq (price_ d) (price_ rhs)
  && CuisineType_eq (cuisine_type_ d) (cuisine_type_ rhs).

Definition not_equal (d rhs : Dish) : bool := negb (equal d rhs).

End DishOps.

(** ** Sequences of calls on one station *)

Inductive StationCall : Type :=
| CallSetName (n : string)
| CallAssignDish (dish : addr)
| CallReplenish (ingredient : Ingredient)
| CallPrepareDish (dish_name : string).

Definition station_call (D : DishStore) (s : KitchenStation.t) (c : StationCall)
  : KitchenStation.t :=
  match c with
  | CallSetName n => KitchenStation.setName s n
  | CallAssignDish dish => snd (KitchenStation.assignDishToStation s dish)
  | CallReplenish ingredient => KitchenStation.replenishStationIngredients s ingredient
  | CallPrepareDish dish_name => snd (KitchenStation.prepareDish D s dish_name)
  end.

Fixpoint station_calls (D : DishStore) (s : KitchenStation.t) (cs : list StationCall)
  : KitchenStation.t :=
  match cs with
  | [] => s
  | c :: rest => station_calls D (station_call D s c) rest
  end.

(** The ingredient names that the roster dishes of one name require. *)
Definition required_names (D : DishStore) (s : KitchenStation.t) (d : string)
  : list string :=
  flat_map (fun dish => if String.eqb (name_ (D dish)) d
                        then stock_names (ingredients_ (D dish)) else [])
           (KitchenStation.dishes_ s).

(** Case split on the equality of two names. *)
Ltac eqb_cases a b := destruct (String.eqb_spec a b).

(** * Properties *)

(** ** Integer arithmetic *)

Module IntFacts.

Lemma wrap_in_range (z : Z) : Int.in_range (Int.wrap z).
Proof.
  unfold Int.in_range, Int.wrap, Int.min_int, Int.max_int.
  pose proof (Z.mod_pos_bound (z + 2147483648) 4294967296 ltac:(lia)). lia.
Qed.

Lemma wrap_small (z : Z) : Int.in_range z -> Int.wrap z = z.
Proof.
  unfold Int.in_range, Int.wrap, Int.min_int, Int.max_int. intros H.
  rewrite Z.mod_small by lia. lia.
Qed.

Lemma wrap_plus_l (a b : Z) : Int.wrap (Int.wrap a + b) = Int.wrap (a + b).
Proof.
  unfold Int.wrap. f_equal.
  replace ((a + 2147483648) mod 4294967296 - 2147483648 + b + 2147483648)
    with ((a + 2147483648) mod 4294967296 + b) by lia.
  rewrite Zplus_mod_idemp_l. f_equal. lia.
Qed.

Lemma wrap_plus_r (a b : Z) : Int.wrap (a + Int.wrap b) = Int.wrap (a + b).
Proof. rewrite (Z.add_comm a), wrap_plus_l. f_equal. lia. Qed.

Lemma add_assoc (a b c : Z) : Int.add (Int.add a b) c = Int.add a (Int.add b c).
Proof.
  unfold Int.add. rewrite wrap_plus_l, wrap_plus_r. f_equal. lia.
Qed.

Lemma add_comm (a b : Z) : Int.add a b = Int.add b a.
Proof. unfold Int.add. f_equal. lia. Qed.

Lemma add_0_r (a : Z) : Int.in_range a -> Int.add a 0 = a.
Proof. intros H. unfold Int.add. rewrite Z.add_0_r. now apply wrap_small. Qed.

Lemma sub_small (a b : Z) : Int.in_range (a - b) -> Int.sub a b = a - b.
Proof. apply wrap_small. Qed.

End IntFacts.

(** ** One station: replenishing and preparing *)

Module KitchenStationFacts.

Import KitchenStation.

(** *** Names in the stock *)

Lemma replenish_names_present (stock : list Ingredient) (i : Ingredient) :
  In (name i) (stock_names stock) ->
  stock_names (replenish_stock stock i) = stock_names stock.
Proof.
  induction stock as [|e rest IH]; simpl; intros Hin.
  - contradiction.
  - eqb_cases (name e) (name i); simpl.
    + reflexivity.
    + f_equal. apply IH. destruct Hin as [Hin|Hin]; [congruence|exact Hin].
Qed.

Lemma replenish_names_absent (stock : list Ingredient) (i : Ingredient) :
  ~ In (name i) (stock_names stock) ->
  stock_names (replenish_stock stock i) = stock_names stock ++ [name i].
Proof.
  induction stock as [|e rest IH]; simpl; intros Hout.
  - reflexivity.
  - eqb_cases (name e) (name i); simpl.
    + exfalso. apply Hout. now left.
    + f_equal. apply IH. intros Hin. apply Hout. now right.
Qed.

Lemma use_ingredient_names (stock : list Ingredient) (di : Ingredient) :
  stock_names (use_ingredient stock di) = stock_names stock.
Proof.
  induction stock as [|e rest IH]; simpl.
  - reflexivity.
  - eqb_cases (name di) (name e); simpl; [reflexivity | now rewrite IH].
Qed.

Lemma use_ingredients_names (ings stock : list Ingredient) :
  stock_names (use_ingredients stock ings) = stock_names stock.
Proof.
  revert stock. induction ings as [|di rest IH]; simpl; intros stock.
  - reflexivity.
  - now rewrite IH, use_ingredient_names.
Qed.

Lemma use_dishes_names (D : DishStore) (d : string) (dishes : list addr)
      (stock : list Ingredient) :
  stock_names (use_dishes D stock dishes d) = stock_names stock.
Proof.
  revert stock. induction dishes as [|dish rest IH]; simpl; intros stock.
  - reflexivity.
  - destruct (String.eqb (name_ (D dish)) d).
    + now rewrite IH, use_ingredients_names.
    + apply IH.
Qed.

Lemma filter_names_incl (f : Ingredient -> bool) (stock : list Ingredient) (n : string) :
  In n (stock_names (filter f stock)) -> In n (stock_names stock).
Proof.
  unfold stock_names. rewrite !in_map_iff.
  intros [x [Hx Hin]]. apply filter_In in Hin. exists x. tauto.
Qed.

Lemma filter_names_NoDup (f : Ingredient -> bool) (stock : list Ingredient) :
  NoDup (stock_names stock) -> NoDup (stock_names (filter f stock)).
Proof.
  induction stock as [|e rest IH]; simpl; intros Hnd.
  - constructor.
  - inversion Hnd as [|? ? Hout Hrest]; subst.
    destruct (f e); simpl.
    + constructor; [|now apply IH].
      intros Hin. apply Hout. now apply filter_names_incl in Hin.
    + now apply IH.
Qed.

Lemma replenish_names_NoDup (stock : list Ingredient) (i : Ingredient) :
  NoDup (stock_names stock) -> NoDup (stock_names (replenish_stock stock i)).
Proof.
  intros Hnd.
  destruct (in_dec string_dec (name i) (stock_names stock)) as [Hin|Hout].
  - now rewrite replenish_names_present.
  - rewrite replenish_names_absent by assumption.
    apply NoDup_app; [assumption | repeat constructor; intros [] | ].
    intros x Hx [Hx'|[]]. subst. contradiction.
Qed.

(** *** Quantities stay non-negative *)

Lemma clamp_nonneg (q : Z) : 0 <= clamp q.
Proof. unfold clamp. destruct (Z.leb_spec q 0); lia. Qed.

Lemma clamp_positive (q : Z) : 0 < q -> clamp q = q.
Proof. unfold clamp. destruct (Z.leb_spec q 0); lia. Qed.

Lemma use_ingredient_nonneg (stock : list Ingredient) (di : Ingredient) :
  nonnegative_stock stock -> nonnegative_stock (use_ingredient stock di).
Proof.
  unfold nonnegative_stock.
  induction stock as [|e rest IH]; simpl; intros H.
  - constructor.
  - inversion H; subst.
    destruct (String.eqb (name di) (name e)); constructor; auto.
    simpl. apply clamp_nonneg.
Qed.

Lemma use_ingredients_nonneg (ings stock : list Ingredient) :
  nonnegative_stock stock -> nonnegative_stock (use_ingredients stock ings).
Proof.
  revert stock. induction ings as [|di rest IH]; simpl; intros stock H.
  - exact H.
  - apply IH. now apply use_ingredient_nonneg.
Qed.

Lemma use_dishes_nonneg (D : DishStore) (d : string) (dishes : list addr)
      (stock : list Ingredient) :
  nonnegative_stock stock -> nonnegative_stock (use_dishes D stock dishes d).
Proof.
  revert stock. induction dishes as [|dish rest IH]; simpl; intros stock H.
  - exact H.
  - destruct (String.eqb (name_ (D dish)) d); apply IH; [|exact H].
    now apply use_ingredients_nonneg.
Qed.

Lemma remove_depleted_nonneg (stock : list Ingredient) :
  nonnegative_stock stock -> nonnegative_stock (remove_depleted stock).
Proof.
  unfold nonnegative_stock, remove_depleted. rewrite !Forall_forall.
  intros H x Hx. apply filter_In in Hx. apply H. tauto.
Qed.

Lemma remove_depleted_nonzero (stock : list Ingredient) (x : Ingredient) :
  In x (remove_depleted stock) -> quantity x <> 0.
Proof.
  unfold remove_depleted. intros Hx. apply filter_In in Hx.
  destruct Hx as [_ Hq]. apply negb_true_iff, Z.eqb_neq in Hq. exact Hq.
Qed.

Lemma prepareDish_nonneg (D : DishStore) (s : t) (d : string) :
  nonnegative_stock (ingredients_stock_ s) ->
  nonnegative_stock (ingredients_stock_ (snd (prepareDish D s d))).
Proof.
  intros H. unfold prepareDish.
  destruct (negb (canCompleteOrder D s d)); simpl.
  - exact H.
  - now apply remove_depleted_nonneg, use_dishes_nonneg.
Qed.

(** *** The first entry of a name under [replenish_stock] *)

Lemma stock_entry_replenish (stock : list Ingredient) (i : Ingredient) :
  stock_entry (name i) (replenish_stock stock i)
  = Some match stock_entry (name i) stock with
         | Some e => set_quantity e (Int.add (quantity e) (quantity i))
         | None => i
         end.
Proof.
  unfold stock_entry.
  induction stock as [|e rest IH]; simpl.
  - now rewrite String.eqb_refl.
  - eqb_cases (name e) (name i); simpl.
    + eqb_cases (name e) (name i); [reflexivity | contradiction].
    + eqb_cases (name e) (name i); [contradiction | exact IH].
Qed.

Lemma replenish_matched_only_quantity (stock : list Ingredient) (i i' : Ingredient) :
  name i' = name i -> quantity i' = quantity i ->
  In (name i) (stock_names stock) ->
  replenish_stock stock i' = replenish_stock stock i.
Proof.
  intros Hn Hq.
  induction stock as [|e rest IH]; simpl; intros Hin.
  - contradiction.
  - rewrite Hn, Hq. eqb_cases (name e) (name i).
    + reflexivity.
    + f_equal. apply IH. destruct Hin as [Hin|Hin]; [congruence|exact Hin].
Qed.

Lemma stock_entry_In (n : string) (stock : list Ingredient) (e : Ingredient) :
  stock_entry n stock = Some e -> In e stock /\ name e = n.
Proof.
  unfold stock_entry. intros H. apply find_some in H.
  destruct H as [Hin Heq]. apply String.eqb_eq in Heq. tauto.
Qed.

(** *** Feasibility *)

Lemma found_in_stock_iff (stock : list Ingredient) (ing : Ingredient) :
  found_in_stock stock ing = true <-> satisfied stock ing.
Proof.
  unfold satisfied. induction stock as [|e rest IH]; simpl.
  - split; [discriminate | intros [si [[] _]]].
  - destruct (String.eqb (name e) (name ing)
              && (required_quantity ing <=? quantity e)%Z) eqn:Htest.
    + split; [intros _ | reflexivity].
      apply andb_true_iff in Htest. destruct Htest as [Hn Hq].
      apply String.eqb_eq in Hn. apply Z.leb_le in Hq.
      exists e. auto.
    + rewrite IH. split.
      * intros [si [Hin Hsi]]. exists si. auto.
      * intros [si [[Heq|Hin] [Hn Hq]]]; [|exists si; auto].
        subst si. exfalso.
        apply andb_false_iff in Htest. destruct Htest as [Hf|Hf].
        -- apply String.eqb_neq in Hf. contradiction.
        -- apply Z.leb_gt in Hf. lia.
Qed.

Lemma all_found_iff (stock ings : list Ingredient) :
  all_found stock ings = true <-> forall ing, In ing ings -> satisfied stock ing.
Proof.
  induction ings as [|ing rest IH]; simpl.
  - split; [intros _ ? [] | reflexivity].
  - destruct (found_in_stock stock ing) eqn:Hf.
    + rewrite IH. apply found_in_stock_iff in Hf. split.
      * intros H x [Hx|Hx]; [now subst | now apply H].
      * intros H x Hx. apply H. now right.
    + split; [discriminate|]. intros H.
      rewrite <- Hf. apply found_in_stock_iff, H. now left.
Qed.

Lemma canComplete_scan_skip (D : DishStore) (stock : list Ingredient)
      (before rest : list addr) (d : string) :
  (forall x, In x before -> name_ (D x) <> d) ->
  canComplete_scan D stock (before ++ rest) d = canComplete_scan D stock rest d.
Proof.
  induction before as [|x before IH]; simpl; intros H.
  - reflexivity.
  - eqb_cases (name_ (D x)) d.
    + exfalso. apply (H x); auto.
    + apply IH. intros y Hy. apply H. now right.
Qed.

Lemma canComplete_scan_none (D : DishStore) (stock : list Ingredient)
      (dishes : list addr) (d : string) :
  (forall x, In x dishes -> name_ (D x) <> d) ->
  canComplete_scan D stock dishes d = false.
Proof.
  intros H. rewrite <- (app_nil_r dishes). now rewrite canComplete_scan_skip.
Qed.

Lemma canComplete_scan_first (D : DishStore) (stock : list Ingredient)
      (dishes : list addr) (d : string) :
  canComplete_scan D stock dishes d = true ->
  exists before dish after,
    dishes = before ++ dish :: after
    /\ (forall x, In x before -> name_ (D x) <> d)
    /\ name_ (D dish) = d
    /\ all_found stock (ingredients_ (D dish)) = true.
Proof.
  induction dishes as [|x rest IH]; simpl.
  - discriminate.
  - eqb_cases (name_ (D x)) d.
    + intros H. exists [], x, rest. simpl. intuition.
    + intros H. destruct (IH H) as [before [dish [after [Hsplit [Hb [Hd Ha]]]]]].
      exists (x :: before), dish, after. simpl. rewrite Hsplit.
      repeat split; auto.
      intros y [Hy|Hy]; [now subst | now apply Hb].
Qed.

(** *** What a successful preparation does to the stock *)

Lemma use_ingredient_keeps (stock : list Ingredient) (di x : Ingredient) :
  In x stock -> name di <> name x -> In x (use_ingredient stock di).
Proof.
  induction stock as [|e rest IH]; simpl; intros Hin Hne.
  - contradiction.
  - eqb_cases (name di) (name e).
    + destruct Hin as [Hin|Hin]; [subst; contradiction | now right].
    + destruct Hin as [Hin|Hin]; [now left | right; now apply IH].
Qed.

Lemma use_ingredient_hits (stock : list Ingredient) (di si : Ingredient) :
  NoDup (stock_names stock) -> In si stock -> name si = name di ->
  In (set_quantity si (clamp (Int.sub (quantity si) (required_quantity di))))
     (use_ingredient stock di).
Proof.
  induction stock as [|e rest IH]; simpl; intros Hnd Hin Hn.
  - contradiction.
  - inversion Hnd as [|? ? Hout Hrest]; subst.
    eqb_cases (name di) (name e).
    + destruct Hin as [Hin|Hin]; [subst; now left|].
      exfalso. apply Hout. replace (name e) with (name si) by congruence.
      now apply in_map.
    + destruct Hin as [Hin|Hin]; [subst; congruence|].
      right. now apply IH.
Qed.

Lemma use_ingredients_keeps (ings stock : list Ingredient) (x : Ingredient) :
  In x stock -> (forall di, In di ings -> name di <> name x) ->
  In x (use_ingredients stock ings).
Proof.
  revert stock. induction ings as [|di rest IH]; simpl; intros stock Hin Hne.
  - exact Hin.
  - apply IH; [|auto]. apply use_ingredient_keeps; auto.
Qed.

Lemma use_ingredients_hits (ings stock : list Ingredient) (ing si : Ingredient) :
  NoDup (stock_names stock) -> NoDup (stock_names ings) ->
  In ing ings -> In si stock -> name si = name ing ->
  In (set_quantity si (clamp (Int.sub (quantity si) (required_quantity ing))))
     (use_ingredients stock ings).
Proof.
  revert stock. induction ings as [|di rest IH]; simpl; intros stock Hs Hi Hing Hsi Hn.
  - contradiction.
  - inversion Hi as [|? ? Hout Hrest]; subst.
    destruct Hing as [Heq|Hing].
    + subst di. apply use_ingredients_keeps.
      * now apply use_ingredient_hits.
      * intros di Hdi Hname. simpl in Hname. apply Hout.
        replace (name ing) with (name di) by congruence. now apply in_map.
    + apply IH; auto.
      * now rewrite use_ingredient_names.
      * apply use_ingredient_keeps; [assumption|].
        intros Hname. apply Hout.
        replace (name di) with (name ing) by congruence. now apply in_map.
Qed.

Lemma use_dishes_none (D : DishStore) (d : string) (dishes : list addr)
      (stock : list Ingredient) :
  (forall x, In x dishes -> name_ (D x) <> d) ->
  use_dishes D stock dishes d = stock.
Proof.
  induction dishes as [|x rest IH]; simpl; intros H.
  - reflexivity.
  - eqb_cases (name_ (D x)) d.
    + exfalso. apply (H x); auto.
    + apply IH. intros y Hy. apply H. now right.
Qed.

Lemma use_dishes_app (D : DishStore) (d : string) (l1 l2 : list addr)
      (stock : list Ingredient) :
  use_dishes D stock (l1 ++ l2) d = use_dishes D (use_dishes D stock l1 d) l2 d.
Proof.
  revert stock. induction l1 as [|x rest IH]; simpl; intros stock.
  - reflexivity.
  - destruct (String.eqb (name_ (D x)) d); apply IH.
Qed.

Lemma use_dishes_sole (D : DishStore) (s : t) (d : string) (dish : addr) :
  sole_dish D s d dish ->
  use_dishes D (ingredients_stock_ s) (dishes_ s) d
  = use_ingredients (ingredients_stock_ s) (ingredients_ (D dish)).
Proof.
  intros [before [after [Hsplit [Hd Hothers]]]].
  rewrite Hsplit, use_dishes_app.
  rewrite (use_dishes_none D d before)
    by (intros x Hx; apply Hothers, in_or_app; auto).
  simpl. apply String.eqb_eq in Hd. rewrite Hd.
  apply use_dishes_none. intros x Hx. apply Hothers, in_or_app. auto.
Qed.

Lemma same_name_same_entry (stock : list Ingredient) (x y : Ingredient) :
  NoDup (stock_names stock) -> In x stock -> In y stock -> name x = name y -> x = y.
Proof.
  induction stock as [|e rest IH]; simpl; intros Hnd Hx Hy Hn.
  - contradiction.
  - inversion Hnd as [|? ? Hout Hrest]; subst.
    destruct Hx as [Hx|Hx], Hy as [Hy|Hy]; subst; auto.
    + exfalso. apply Hout. rewrite Hn. now apply in_map.
    + exfalso. apply Hout. rewrite <- Hn. now apply in_map.
Qed.

(** *** Claims about one station *)

(** C3.  When [canCompleteOrder] answers false for a dish name,
    [prepareDish] answers false and hands back the very same station:
    same name, same roster, same stock. *)
Theorem prepareDish_infeasible_no_effect (D : DishStore) (s : t) (d : string) :
  canCompleteOrder D s d = false ->
  prepareDish D s d = (false, s).
Proof.
  intros H. unfold prepareDish. now rewrite H.
Qed.

Lemma prepareDish_infeasible_no_effect_witness :
  canCompleteOrder Sample.dishes Sample.pantry "Soup" = false
  /\ prepareDish Sample.dishes Sample.pantry "Soup" = (false, Sample.pantry).
Proof.
  split.
  - reflexivity.
  - apply (prepareDish_infeasible_no_effect Sample.dishes Sample.pantry "Soup").
    reflexivity.
Defined.

(** C6.  Replenishing a name with [q1] and then with [q2] leaves the
    same quantity under that name as one replenish with [q1 + q2] (the
    sum being the [int] sum): in both cases the stock then has an entry of
    the name, holding the former quantity plus [q1 + q2], or [q1 + q2]
    alone when the name was absent.  When the stock already has an entry of
    the name, that entry keeps its own required quantity and price and only
    its quantity grows, so the result depends on the incoming ingredient
    through its name and quantity alone. *)
Theorem replenish_twice_as_once (s : t) (n : string) (i1 i2 i12 : Ingredient) :
  name i1 = n -> name i2 = n -> name i12 = n ->
  quantity i12 = Int.add (quantity i1) (quantity i2) ->
  stock_quantity n
    (ingredients_stock_
       (replenishStationIngredients (replenishStationIngredients s i1) i2))
  = stock_quantity n (ingredients_stock_ (replenishStationIngredients s i12))
  /\ stock_quantity n (ingredients_stock_ (replenishStationIngredients s i12))
     = Some match stock_quantity n (ingredients_stock_ s) with
            | Some q => Int.add q (Int.add (quantity i1) (quantity i2))
            | None => Int.add (quantity i1) (quantity i2)
            end
  /\ (forall e, stock_entry n (ingredients_stock_ s) = Some e ->
        stock_entry n (ingredients_stock_ (replenishStationIngredients s i1))
        = Some (set_quantity e (Int.add (quantity e) (quantity i1)))
        /\ forall i', name i' = n -> quantity i' = quantity i1 ->
             replenishStationIngredients s i' = replenishStationIngredients s i1).
Proof.
  intros H1 H2 H12 Hq. split; [|split].
  - unfold stock_quantity, replenishStationIngredients. simpl.
    rewrite <- H2 at 1. rewrite stock_entry_replenish.
    rewrite H2, <- H1, stock_entry_replenish.
    rewrite H1, <- H12, stock_entry_replenish. rewrite H12.
    destruct (stock_entry n (ingredients_stock_ s)) as [e|]; simpl.
    + rewrite Hq. f_equal. apply IntFacts.add_assoc.
    + now rewrite Hq.
  - unfold stock_quantity, replenishStationIngredients. simpl.
    rewrite <- H12 at 1. rewrite stock_entry_replenish, H12.
    destruct (stock_entry n (ingredients_stock_ s)) as [e|]; simpl;
      now rewrite Hq.
  - intros e He. split.
    + unfold replenishStationIngredients. simpl.
      rewrite <- H1 at 1. rewrite stock_entry_replenish, H1, He. reflexivity.
    + intros i' Hn' Hq'. unfold replenishStationIngredients. f_equal.
      apply replenish_matched_only_quantity; [congruence | assumption |].
      apply stock_entry_In in He. destruct He as [Hin Hname].
      rewrite H1, <- Hname. now apply in_map.
Qed.

(** On a name the stock lacks (the dessert station is empty) and on a name
    it has (the grill holds 30 tomatoes). *)
Lemma replenish_twice_as_once_witness :
  stock_quantity "Tomato"
    (ingredients_stock_
       (replenishStationIngredients
          (replenishStationIngredients Sample.dessert (Sample.tomato 5 9))
          (Sample.tomato 7 1)))
  = Some 12
  /\ stock_quantity "Tomato"
       (ingredients_stock_
          (replenishStationIngredients
             (replenishStationIngredients Sample.grill (Sample.tomato 5 9))
             (Sample.tomato 7 1)))
     = Some 42.
Proof.
  split.
  - destruct (replenish_twice_as_once Sample.dessert "Tomato"
                (Sample.tomato 5 9) (Sample.tomato 7 1) (Sample.tomato 12 3)
                eq_refl eq_refl eq_refl eq_refl) as [Htwice [Honce _]].
    exact (eq_trans Htwice Honce).
  - destruct (replenish_twice_as_once Sample.grill "Tomato"
                (Sample.tomato 5 9) (Sample.tomato 7 1) (Sample.tomato 12 3)
                eq_refl eq_refl eq_refl eq_refl) as [Htwice [Honce _]].
    exact (eq_trans Htwice Honce).
Defined.

(** C7.  If no stock entry of a station has a negative quantity, none has
    one after any sequence of [prepareDish] calls, whatever the dish names
    and whether each call succeeds or not. *)
Theorem prepare_all_nonnegative (D : DishStore) (s : t) (orders : list string) :
  nonnegative_stock (ingredients_stock_ s) ->
  nonnegative_stock (ingredients_stock_ (prepare_all D s orders)).
Proof.
  revert s. induction orders as [|d rest IH]; simpl; intros s H.
  - exact H.
  - apply IH. now apply prepareDish_nonneg.
Qed.

Lemma prepare_all_nonnegative_witness :
  nonnegative_stock
    (ingredients_stock_
       (prepare_all Sample.dishes Sample.salad_bar ["Salad"; "Soup"; "Salad"])).
Proof.
  apply (prepare_all_nonnegative Sample.dishes Sample.salad_bar
           ["Salad"; "Soup"; "Salad"]).
  unfold nonnegative_stock. simpl. repeat constructor. simpl. lia.
Defined.

(** C8.  If no two stock entries of a station share a name, the same
    holds after [replenishStationIngredients] with any ingredient and
    after [prepareDish] with any dish name. *)
Theorem stock_names_stay_unique (D : DishStore) (s : t) (i : Ingredient) (d : string) :
  NoDup (stock_names (ingredients_stock_ s)) ->
  NoDup (stock_names (ingredients_stock_ (replenishStationIngredients s i)))
  /\ NoDup (stock_names (ingredients_stock_ (snd (prepareDish D s d)))).
Proof.
  intros Hnd. split.
  - simpl. now apply replenish_names_NoDup.
  - unfold prepareDish. destruct (negb (canCompleteOrder D s d)); simpl.
    + exact Hnd.
    + apply filter_names_NoDup. now rewrite use_dishes_names.
Qed.

Lemma stock_names_stay_unique_witness :
  NoDup (stock_names
           (ingredients_stock_
              (replenishStationIngredients Sample.grill (Sample.lettuce 4 0))))
  /\ NoDup (stock_names
              (ingredients_stock_
                 (snd (prepareDish Sample.dishes Sample.grill
                         "Grilled Chicken Sandwich")))).
Proof.
  apply (stock_names_stay_unique Sample.dishes Sample.grill (Sample.lettuce 4 0)
           "Grilled Chicken Sandwich").
  simpl. repeat constructor; simpl; intuition discriminate.
Defined.

(** C2, as amended.  [canCompleteOrder] answers true exactly when the
    roster has a dish of that name and every ingredient of the first such
    dish, in roster order, has a stock entry of its name holding at least
    the required quantity; and it answers false when no roster dish has
    the name, whatever the stock. *)
Theorem canCompleteOrder_first_dish (D : DishStore) (s : t) (d : string) :
  (canCompleteOrder D s d = true <-> first_dish_feasible D s d)
  /\ ((forall x, In x (dishes_ s) -> name_ (D x) <> d) ->
      canCompleteOrder D s d = false).
Proof.
  unfold canCompleteOrder, first_dish_feasible. split; [split|].
  - intros H. apply canComplete_scan_first in H.
    destruct H as [before [dish [after [Hsplit [Hb [Hd Ha]]]]]].
    exists before, dish, after. rewrite all_found_iff in Ha. auto.
  - intros [before [dish [after [Hsplit [Hb [Hd Ha]]]]]].
    rewrite Hsplit, canComplete_scan_skip by assumption. simpl.
    apply String.eqb_eq in Hd. rewrite Hd. now apply all_found_iff.
  - apply canComplete_scan_none.
Qed.

Lemma canCompleteOrder_first_dish_witness :
  canCompleteOrder Sample.dishes Sample.grill "Soup" = false.
Proof.
  apply (proj2 (canCompleteOrder_first_dish Sample.dishes Sample.grill "Soup")).
  simpl. intros x [Hx|[]]. subst x. discriminate.
Defined.

(** C2 as stated fails on a roster with two dishes of one name: the
    pantry's second "Soup" needs nothing, so some dish named "Soup" has all
    its ingredients in stock, yet the answer is false because the first
    "Soup" needs two tomatoes and the stock has one. *)
Lemma canCompleteOrder_some_dish_counterexample :
  ~ (canCompleteOrder Sample.dishes Sample.pantry "Soup" = true
     <-> some_dish_feasible Sample.dishes Sample.pantry "Soup").
Proof.
  intros [_ H].
  assert (Hfalse : canCompleteOrder Sample.dishes Sample.pantry "Soup" = false)
    by reflexivity.
  rewrite H in Hfalse; [discriminate|].
  exists 3%N. simpl. repeat split; auto. intros ing [].
Qed.

(** C1, as amended.  Take a station whose stock has no two entries of one
    name and holds [int] quantities, and a dish name borne by exactly one
    roster dish, whose ingredient names are pairwise distinct and whose
    required quantities are not negative.  When [prepareDish] answers
    true, every ingredient of that dish has had its stock entry reduced by
    exactly the required quantity, the entry being gone when that leaves
    0, and no entry of the new stock has quantity 0. *)
Theorem prepareDish_reduces_stock (D : DishStore) (s s' : t) (d : string) (dish : addr) :
  prepareDish D s d = (true, s') ->
  sole_dish D s d dish ->
  NoDup (stock_names (ingredients_stock_ s)) ->
  NoDup (stock_names (ingredients_ (D dish))) ->
  Forall (fun i => quantity i <= Int.max_int) (ingredients_stock_ s) ->
  Forall (fun i => 0 <= required_quantity i) (ingredients_ (D dish)) ->
  prepared D s s' d.
Proof.
  intros Hrun Hsole Hstock Hings Hmax Hreq.
  unfold prepareDish in Hrun.
  destruct (canCompleteOrder D s d) eqn:Hcan; simpl in Hrun; [|discriminate].
  injection Hrun as Hs'. subst s'. simpl.
  rewrite (use_dishes_sole D s d dish Hsole).
  pose proof Hsole as [before [after [Hsplit [Hd Hothers]]]].
  assert (Hall : forall ing, In ing (ingredients_ (D dish)) ->
                             satisfied (ingredients_stock_ s) ing).
  { apply all_found_iff. unfold canCompleteOrder in Hcan.
    rewrite Hsplit, canComplete_scan_skip in Hcan
      by (intros x Hx; apply Hothers, in_or_app; auto).
    simpl in Hcan. apply String.eqb_eq in Hd. now rewrite Hd in Hcan. }
  split; [|intros x; apply remove_depleted_nonzero].
  intros dish' Hin' Hd' ing Hing.
  assert (dish' = dish) as ->.
  { rewrite Hsplit in Hin'. apply in_app_or in Hin'.
    destruct Hin' as [Hin'|[Hin'|Hin']]; [|now subst|];
      exfalso; apply (Hothers dish'); auto using in_or_app. }
  destruct (Hall ing Hing) as [si [Hsi [Hname Hle]]].
  rewrite Forall_forall in Hmax, Hreq.
  specialize (Hmax si Hsi). specialize (Hreq ing Hing). simpl in Hmax, Hreq.
  pose proof (use_ingredients_hits _ _ ing si Hstock Hings Hing Hsi Hname) as Hhit.
  rewrite IntFacts.sub_small in Hhit
    by (unfold Int.in_range, Int.min_int, Int.max_int in *; lia).
  exists si. repeat split; auto.
  destruct (Z.eq_dec (quantity si - required_quantity ing) 0) as [Hz|Hnz].
  - left. split; [exact Hz|].
    intros x Hx Hxn. pose proof (remove_depleted_nonzero _ _ Hx) as Hq.
    apply filter_In in Hx. destruct Hx as [Hx _].
    apply Hq.
    rewrite (same_name_same_entry _ x _ ltac:(rewrite use_ingredients_names; exact Hstock)
               Hx Hhit ltac:(simpl; congruence)).
    simpl. rewrite Hz. reflexivity.
  - right. split; [exact Hnz|].
    rewrite clamp_positive in Hhit by lia.
    apply filter_In. split; [exact Hhit|].
    simpl. apply negb_true_iff, Z.eqb_neq. exact Hnz.
Qed.

Lemma prepareDish_reduces_stock_witness :
  prepared Sample.dishes Sample.grill
    (KitchenStation.mk "Grill Station" [1%N]
       [Sample.tomato 28 0; Sample.lettuce 19 0])
    "Grilled Chicken Sandwich".
Proof.
  apply (prepareDish_reduces_stock Sample.dishes Sample.grill _
           "Grilled Chicken Sandwich" 1%N).
  - reflexivity.
  - exists [], []. simpl. repeat split; auto.
  - simpl. repeat constructor; simpl; intuition discriminate.
  - simpl. repeat constructor; simpl; intuition discriminate.
  - simpl. repeat constructor; unfold Int.max_int; simpl; lia.
  - simpl. repeat constructor; simpl; lia.
Defined.

(** C1 as stated fails when the decrement is clamped: the salad lists
    "Tomato" twice with required quantity 2 and the stock has 3, so the
    order is feasible, the entry goes 3, 1, 0 and is removed, although
    3 - 2 is not 0. *)
Lemma prepareDish_clamp_counterexample :
  fst (prepareDish Sample.dishes Sample.salad_bar "Salad") = true
  /\ ~ prepared Sample.dishes Sample.salad_bar
         (snd (prepareDish Sample.dishes Sample.salad_bar "Salad")) "Salad".
Proof.
  split; [reflexivity|].
  intros [H _].
  specialize (H 4%N (or_introl eq_refl) eq_refl (Sample.tomato 0 2) (or_introl eq_refl)).
  destruct H as [si [Hin [_ [[Hq _]|[_ Hgone]]]]].
  - destruct Hin as [Hin|[]]. subst si. simpl in Hq. discriminate.
  - simpl in Hgone. exact Hgone.
Qed.

(** *** Scenarios of the spec *)

(** "Sandwich" needs Tomato x 2; with Tomato x 1 the order is infeasible,
    after one more tomato it is feasible, and preparing it empties the
    stock. *)
Example tomato_scenario :
  let D : DishStore := fun _ => mkDish "Sandwich" [Sample.tomato 0 2] 0 0 OTHER in
  let grill := mk "Grill" [1%N] [Sample.tomato 1 0] in
  let grill' := replenishStationIngredients grill (Sample.tomato 1 0) in
  canCompleteOrder D grill "Sandwich" = false
  /\ canCompleteOrder D grill' "Sandwich" = true
  /\ prepareDish D grill' "Sandwich" = (true, mk "Grill" [1%N] []).
Proof. vm_compute. repeat split. Qed.

(** Assigning one dish pointer twice: the second call answers false and the
    roster keeps its length. *)
Example assign_twice_scenario :
  let s1 := snd (assignDishToStation Sample.dessert 1%N) in
  assignDishToStation s1 1%N = (false, s1) /\ dishes_ s1 = [1%N].
Proof. split; reflexivity. Qed.

(** Where the clamp also bites.  Two roster dishes of one name are both
    consumed for, although only the first was checked; and with two stock
    entries of one name the check may pass on the second while the first is
    the one decremented. *)
Example two_dishes_of_one_name :
  let D : DishStore := fun a =>
    match a with
    | 1%N => mkDish "Soup" [Sample.tomato 0 2] 0 0 OTHER
    | _ => mkDish "Soup" [Sample.tomato 0 3] 0 0 OTHER
    end in
  prepareDish D (mk "Prep" [1%N; 2%N] [Sample.tomato 4 0]) "Soup"
  = (true, mk "Prep" [1%N; 2%N] []).
Proof. vm_compute. reflexivity. Qed.

Example two_entries_of_one_name :
  prepareDish Sample.dishes (mk "Prep" [2%N] [Sample.tomato 1 0; Sample.tomato 5 0]) "Soup"
  = (true, mk "Prep" [2%N] [Sample.tomato 5 0]).
Proof. vm_compute. reflexivity. Qed.

End KitchenStationFacts.

(** ** The manager: find, move to front, merge *)

Module StationManagerFacts.

Import StationManager.

(** *** The list operations at the positions the loops use *)

Lemma getEntry_middle (l1 l2 : list addr) (p : addr) :
  LinkedList.getEntry (l1 ++ p :: l2) (List.length l1) = Some p.
Proof.
  unfold LinkedList.getEntry.
  rewrite nth_error_app2 by lia. now rewrite Nat.sub_diag.
Qed.

Lemma remove_middle (l1 l2 : list addr) (p : addr) :
  LinkedList.remove (l1 ++ p :: l2) (List.length l1) = (true, l1 ++ l2).
Proof.
  unfold LinkedList.remove.
  assert (H : (List.length l1 <? List.length (l1 ++ p :: l2))%nat = true).
  { apply Nat.ltb_lt. rewrite length_app. simpl. lia. }
  rewrite H. f_equal. clear H.
  induction l1 as [|x rest IH]; simpl in *; [reflexivity | now rewrite IH].
Qed.

(** *** The first element that passes a test *)

Lemma find_first_split (f : addr -> bool) (l : list addr) (p : addr) :
  find f l = Some p ->
  exists before after,
    l = before ++ p :: after
    /\ (forall x, In x before -> f x = false)
    /\ f p = true
    /\ remove_first f l = before ++ after.
Proof.
  induction l as [|x rest IH]; simpl.
  - discriminate.
  - destruct (f x) eqn:Hfx.
    + intros H. injection H as ->. exists [], rest. simpl. intuition.
    + intros H. destruct (IH H) as [before [after [Hl [Hb [Hp Hr]]]]].
      exists (x :: before), after. simpl. rewrite Hr, Hl at 1.
      repeat split; auto. intros y [Hy|Hy]; [now subst | now apply Hb].
Qed.

Lemma find_pointwise (f g : addr -> bool) (l : list addr) :
  (forall x, f x = g x) -> find f l = find g l.
Proof.
  intros H. induction l as [|x rest IH]; simpl; [reflexivity|].
  now rewrite H, IH.
Qed.

Lemma remove_first_pointwise (f g : addr -> bool) (l : list addr) :
  (forall x, f x = g x) -> remove_first f l = remove_first g l.
Proof.
  intros H. induction l as [|x rest IH]; simpl; [reflexivity|].
  now rewrite H, IH.
Qed.

Lemma find_skips (f : addr -> bool) (l1 l2 : list addr) (x : addr) :
  f x = false -> find f (l1 ++ x :: l2) = find f (l1 ++ l2).
Proof.
  intros Hx. induction l1 as [|y rest IH]; simpl.
  - now rewrite Hx.
  - now rewrite IH.
Qed.

Lemma find_all_false (f : addr -> bool) (l : list addr) :
  (forall x, In x l -> f x = false) -> find f l = None.
Proof.
  induction l as [|x rest IH]; simpl; intros H; [reflexivity|].
  rewrite (H x) by auto. apply IH. auto.
Qed.

Lemma filter_none (f : addr -> bool) (l : list addr) :
  filter f l = [] -> forall x, In x l -> f x = false.
Proof.
  induction l as [|y rest IH]; simpl; intros H x Hx; [contradiction|].
  destruct (f y) eqn:Hy; [discriminate|].
  destruct Hx as [Hx|Hx]; [now subst | now apply IH].
Qed.

Lemma filter_all_false (f : addr -> bool) (l : list addr) :
  (forall x, In x l -> f x = false) -> filter f l = [].
Proof.
  induction l as [|y rest IH]; simpl; intros H; [reflexivity|].
  rewrite (H y) by auto. apply IH. auto.
Qed.

(** *** The three scanning loops *)

Lemma findStation_loop_find (m : t) (n : string) (l2 l1 : list addr) :
  items m = l1 ++ l2 ->
  findStation_loop m n (List.length l2) (List.length l1)
  = match find (fun p => is_named m p n) l2 with
    | Some p => p
    | None => nullptr
    end.
Proof.
  revert l1. induction l2 as [|p rest IH]; simpl; intros l1 Hitems.
  - reflexivity.
  - rewrite Hitems, getEntry_middle.
    destruct (is_named m p n); [reflexivity|].
    replace (S (List.length l1)) with (List.length (l1 ++ [p]))
      by (rewrite length_app; simpl; lia).
    apply IH. now rewrite <- app_assoc.
Qed.

Lemma findStation_find (m : t) (n : string) :
  findStation m n
  = match find (fun p => is_named m p n) (items m) with
    | Some p => p
    | None => nullptr
    end.
Proof. apply (findStation_loop_find m n (items m) []). reflexivity. Qed.

Lemma findStation_found (m : t) (n : string) :
  findStation m n <> nullptr ->
  find (fun p => is_named m p n) (items m) = Some (findStation m n).
Proof.
  rewrite findStation_find.
  destruct (find (fun p => is_named m p n) (items m)); [reflexivity|].
  intros H. now contradiction H.
Qed.

Lemma findStation_missing (m : t) (n : string) :
  (forall p, In p (items m) -> is_named m p n = false) ->
  findStation m n = nullptr.
Proof.
  intros H. rewrite findStation_find, find_all_false; auto.
Qed.

Lemma removeStation_loop_find (m : t) (n : string) (l2 l1 : list addr) :
  items m = l1 ++ l2 ->
  removeStation_loop m n (List.length l2) (List.length l1)
  = match find (fun p => is_named m p n) l2 with
    | Some p =>
        (true, set_items (delete_station m p)
                 (l1 ++ remove_first (fun p => is_named m p n) l2))
    | None => (false, m)
    end.
Proof.
  revert l1. induction l2 as [|p rest IH]; simpl; intros l1 Hitems.
  - reflexivity.
  - rewrite Hitems at 1. rewrite getEntry_middle.
    destruct (is_named m p n).
    + simpl. rewrite Hitems, remove_middle. reflexivity.
    + replace (S (List.length l1)) with (List.length (l1 ++ [p]))
        by (rewrite length_app; simpl; lia).
      rewrite IH by now rewrite <- app_assoc.
      now rewrite <- app_assoc.
Qed.

Lemma removeStation_find (m : t) (n : string) :
  removeStation m n
  = match find (fun p => is_named m p n) (items m) with
    | Some p =>
        (true, set_items (delete_station m p)
                 (remove_first (fun p => is_named m p n) (items m)))
    | None => (false, m)
    end.
Proof. apply (removeStation_loop_find m n (items m) []). reflexivity. Qed.

Lemma moveStationToFront_loop_find (m : t) (n : string) (l2 l1 : list addr) :
  items m = l1 ++ l2 ->
  moveStationToFront_loop m n (List.length l2) (List.length l1)
  = match find (fun p => is_named m p n) l2 with
    | Some p =>
        (true, set_items m (p :: l1 ++ remove_first (fun p => is_named m p n) l2))
    | None => (false, m)
    end.
Proof.
  revert l1. induction l2 as [|p rest IH]; simpl; intros l1 Hitems.
  - reflexivity.
  - rewrite Hitems at 1. rewrite getEntry_middle.
    destruct (is_named m p n).
    + rewrite Hitems, remove_middle. reflexivity.
    + replace (S (List.length l1)) with (List.length (l1 ++ [p]))
        by (rewrite length_app; simpl; lia).
      rewrite IH by now rewrite <- app_assoc.
      now rewrite <- app_assoc.
Qed.

(** *** Station names and members under a merge *)

Lemma assign_all_name (dishes : list addr) (s : KitchenStation.t) :
  KitchenStation.station_name_ (assign_all s dishes) = KitchenStation.station_name_ s.
Proof.
  revert s. induction dishes as [|d rest IH]; simpl; intros s; [reflexivity|].
  rewrite IH. unfold KitchenStation.assignDishToStation.
  destruct (KitchenStation.already_assigned _ _); reflexivity.
Qed.

Lemma assign_all_stock (dishes : list addr) (s : KitchenStation.t) :
  KitchenStation.ingredients_stock_ (assign_all s dishes)
  = KitchenStation.ingredients_stock_ s.
Proof.
  revert s. induction dishes as [|d rest IH]; simpl; intros s; [reflexivity|].
  rewrite IH. unfold KitchenStation.assignDishToStation.
  destruct (KitchenStation.already_assigned _ _); reflexivity.
Qed.

Lemma replenish_all_name (ings : list Ingredient) (s : KitchenStation.t) :
  KitchenStation.station_name_ (replenish_all s ings) = KitchenStation.station_name_ s.
Proof.
  revert s. induction ings as [|i rest IH]; simpl; intros s; [reflexivity|].
  now rewrite IH.
Qed.

Lemma replenish_all_dishes (ings : list Ingredient) (s : KitchenStation.t) :
  KitchenStation.dishes_ (replenish_all s ings) = KitchenStation.dishes_ s.
Proof.
  revert s. induction ings as [|i rest IH]; simpl; intros s; [reflexivity|].
  now rewrite IH.
Qed.

Lemma already_assigned_In (dishes : list addr) (d : addr) :
  KitchenStation.already_assigned dishes d = true -> In d dishes.
Proof.
  induction dishes as [|x rest IH]; simpl; [discriminate|].
  destruct (N.eqb_spec x d); [now left | right; now apply IH].
Qed.

Lemma assignDish_keeps (s : KitchenStation.t) (d x : addr) :
  In x (KitchenStation.dishes_ s) ->
  In x (KitchenStation.dishes_ (snd (KitchenStation.assignDishToStation s d))).
Proof.
  unfold KitchenStation.assignDishToStation.
  destruct (KitchenStation.already_assigned _ _); simpl; [auto|].
  intros H. apply in_or_app. now left.
Qed.

Lemma assignDish_has (s : KitchenStation.t) (d : addr) :
  In d (KitchenStation.dishes_ (snd (KitchenStation.assignDishToStation s d))).
Proof.
  unfold KitchenStation.assignDishToStation.
  destruct (KitchenStation.already_assigned _ _) eqn:H; simpl.
  - now apply already_assigned_In.
  - apply in_or_app. right. now left.
Qed.

Lemma assign_all_keeps (dishes : list addr) (s : KitchenStation.t) (x : addr) :
  In x (KitchenStation.dishes_ s) -> In x (KitchenStation.dishes_ (assign_all s dishes)).
Proof.
  revert s. induction dishes as [|d rest IH]; simpl; intros s H; [exact H|].
  apply IH. now apply assignDish_keeps.
Qed.

Lemma assign_all_has (dishes : list addr) (s : KitchenStation.t) (x : addr) :
  In x dishes -> In x (KitchenStation.dishes_ (assign_all s dishes)).
Proof.
  revert s. induction dishes as [|d rest IH]; simpl; intros s H; [contradiction|].
  destruct H as [H|H].
  - subst d. apply assign_all_keeps, assignDish_has.
  - now apply IH.
Qed.

(** *** Totals by name under [replenish] *)

Lemma stock_total_in_range (n : string) (stock : list Ingredient) :
  Int.in_range (stock_total n stock).
Proof.
  induction stock as [|e rest IH]; simpl.
  - unfold Int.in_range, Int.min_int, Int.max_int. lia.
  - destruct (String.eqb (name e) n); [apply IntFacts.wrap_in_range | exact IH].
Qed.

Lemma stock_total_replenish (n : string) (stock : list Ingredient) (i : Ingredient) :
  stock_total n (KitchenStation.replenish_stock stock i)
  = Int.add (stock_total n stock) (if String.eqb (name i) n then quantity i else 0).
Proof.
  induction stock as [|e rest IH]; simpl.
  - destruct (String.eqb (name i) n); [apply IntFacts.add_comm | reflexivity].
  - destruct (String.eqb_spec (name e) (name i)) as [Hei|Hei]; simpl.
    + rewrite Hei. destruct (String.eqb (name i) n).
      * rewrite !IntFacts.add_assoc. f_equal. apply IntFacts.add_comm.
      * symmetry. apply IntFacts.add_0_r, stock_total_in_range.
    + rewrite IH. destruct (String.eqb (name e) n); [|reflexivity].
      now rewrite IntFacts.add_assoc.
Qed.

Lemma stock_total_replenish_all (n : string) (ings : list Ingredient)
      (s : KitchenStation.t) :
  stock_total n (KitchenStation.ingredients_stock_ (replenish_all s ings))
  = Int.add (stock_total n (KitchenStation.ingredients_stock_ s)) (stock_total n ings).
Proof.
  revert s. induction ings as [|i rest IH]; simpl; intros s.
  - symmetry. apply IntFacts.add_0_r, stock_total_in_range.
  - rewrite IH. simpl. rewrite stock_total_replenish.
    destruct (String.eqb (name i) n).
    + apply IntFacts.add_assoc.
    + f_equal. apply IntFacts.add_0_r, stock_total_in_range.
Qed.

(** With unique names and [int] quantities the total under a name is the
    quantity of the one entry of that name, or 0 when there is none. *)
Lemma stock_total_unique (n : string) (stock : list Ingredient) :
  NoDup (stock_names stock) ->
  Forall (fun i => Int.in_range (quantity i)) stock ->
  stock_total n stock
  = match stock_entry n stock with Some e => quantity e | None => 0 end.
Proof.
  unfold stock_entry.
  induction stock as [|e rest IH]; simpl; intros Hnd Hr; [reflexivity|].
  inversion Hnd as [|? ? Hout Hrest]; subst. inversion Hr; subst.
  destruct (String.eqb_spec (name e) n) as [He|He]; [|now apply IH].
  rewrite IH by assumption.
  destruct (find (fun i => String.eqb (name i) n) rest) as [x|] eqn:Hx.
  - exfalso. apply find_some in Hx. destruct Hx as [Hin Hn].
    apply String.eqb_eq in Hn. apply Hout. rewrite He, <- Hn. now apply in_map.
  - now apply IntFacts.add_0_r.
Qed.

(** *** The entry found under a name, under [replenish] *)

Lemma stock_quantity_replenish (n : string) (stock : list Ingredient) (i : Ingredient) :
  stock_quantity n (KitchenStation.replenish_stock stock i)
  = if String.eqb (name i) n
    then add_onto (stock_quantity n stock) (quantity i)
    else stock_quantity n stock.
Proof.
  unfold stock_quantity, stock_entry, add_onto.
  induction stock as [|e rest IH]; simpl.
  - destruct (String.eqb (name i) n); reflexivity.
  - destruct (String.eqb_spec (name e) (name i)) as [Hei|Hei]; simpl.
    + rewrite <- Hei. destruct (String.eqb (name e) n); reflexivity.
    + destruct (String.eqb_spec (name e) n) as [Hen|Hen]; simpl.
      * destruct (String.eqb_spec (name i) n); [congruence | reflexivity].
      * exact IH.
Qed.

Lemma stock_quantity_replenish_all (n : string) (ings : list Ingredient)
      (s : KitchenStation.t) :
  stock_quantity n (KitchenStation.ingredients_stock_ (replenish_all s ings))
  = name_wise_sum (stock_quantity n (KitchenStation.ingredients_stock_ s))
      (quantities_named n ings).
Proof.
  unfold name_wise_sum, quantities_named.
  revert s. induction ings as [|i rest IH]; simpl; intros s; [reflexivity|].
  rewrite IH. simpl. rewrite stock_quantity_replenish.
  destruct (String.eqb (name i) n); reflexivity.
Qed.

Lemma quantities_named_absent (n : string) (stock : list Ingredient) :
  ~ In n (stock_names stock) -> quantities_named n stock = [].
Proof.
  unfold quantities_named.
  induction stock as [|e rest IH]; simpl; intros Hout; [reflexivity|].
  destruct (String.eqb_spec (name e) n) as [He|He].
  - exfalso. apply Hout. now left.
  - apply IH. intros Hin. apply Hout. now right.
Qed.

Lemma quantities_named_unique (n : string) (stock : list Ingredient) :
  NoDup (stock_names stock) ->
  quantities_named n stock
  = match stock_quantity n stock with Some q => [q] | None => [] end.
Proof.
  induction stock as [|e rest IH]; simpl; intros Hnd; [reflexivity|].
  inversion Hnd as [|? ? Hout Hrest]; subst.
  unfold quantities_named, stock_quantity, stock_entry in *. simpl.
  destruct (String.eqb_spec (name e) n) as [He|He]; simpl.
  - f_equal. apply (quantities_named_absent n rest). now rewrite <- He.
  - now apply IH.
Qed.

Lemma replenish_all_unique_names (ings : list Ingredient) (s : KitchenStation.t) :
  NoDup (stock_names (KitchenStation.ingredients_stock_ s)) ->
  NoDup (stock_names (KitchenStation.ingredients_stock_ (replenish_all s ings))).
Proof.
  revert s. induction ings as [|i rest IH]; simpl; intros s H; [exact H|].
  apply IH. simpl. now apply KitchenStationFacts.replenish_names_NoDup.
Qed.

(** *** What [mergeStations] returns *)

Lemma store_is_named (m : t) (station : addr) (s : KitchenStation.t) :
  KitchenStation.station_name_ s = KitchenStation.station_name_ (stations m station) ->
  forall p n, is_named (store m station s) p n = is_named m p n.
Proof.
  intros Hname p n. unfold is_named, store. simpl.
  destruct (N.eqb_spec p station); [subst; unfold KitchenStation.getName; now rewrite Hname|].
  reflexivity.
Qed.

Lemma merged_name (m : t) (station1 station2 : addr) :
  KitchenStation.station_name_ (merged m station1 station2)
  = KitchenStation.station_name_ (stations m station1).
Proof. unfold merged. now rewrite replenish_all_name, assign_all_name. Qed.

Lemma mergeStations_success (m m' : t) (A B : string) :
  mergeStations m A B = (true, m') ->
  let station1 := findStation m A in
  let station2 := findStation m B in
  station1 <> nullptr /\ station2 <> nullptr /\ station1 <> station2
  /\ m' = set_items
            (delete_station (store m station1 (merged m station1 station2)) station2)
            (remove_first (fun p => is_named m p B) (items m)).
Proof.
  intros H station1 station2. unfold mergeStations in H.
  fold station1 station2 in H.
  destruct (N.eqb_spec station1 nullptr) as [|H1]; [discriminate|].
  destruct (N.eqb_spec station2 nullptr) as [|H2]; [discriminate|].
  destruct (N.eqb_spec station1 station2) as [|H12]; [discriminate|].
  cbn [negb andb] in H. repeat split; auto.
  fold (merged m station1 station2) in H.
  set (m1 := store m station1 (merged m station1 station2)) in *.
  assert (Hnamed : forall p n, is_named m1 p n = is_named m p n)
    by (apply store_is_named, merged_name).
  rewrite removeStation_find in H.
  rewrite (find_pointwise _ (fun p => is_named m p B)) in H by (intros; apply Hnamed).
  change (items m1) with (items m) in H.
  rewrite (findStation_found m B H2) in H. cbn [snd] in H.
  injection H as <-. f_equal.
  apply remove_first_pointwise. intros; apply Hnamed.
Qed.

Lemma mergeStations_removes_first (m m' : t) (A B : string) :
  mergeStations m A B = (true, m') ->
  exists before after,
    items m = before ++ findStation m B :: after
    /\ (forall p, In p before -> is_named m p B = false)
    /\ is_named m (findStation m B) B = true
    /\ items m' = before ++ after
    /\ In (findStation m A) (items m')
    /\ findStation m' A = findStation m A.
Proof.
  intros H. apply mergeStations_success in H.
  destruct H as [H1 [H2 [H12 Hm']]].
  pose proof (findStation_found m B H2) as HfindB.
  pose proof (findStation_found m A H1) as HfindA.
  destruct (find_first_split _ _ _ HfindB) as [before [after [Hl [Hb [Hp Hr]]]]].
  exists before, after. rewrite Hr in Hm'.
  assert (Hitems : items m' = before ++ after) by now subst m'.
  assert (HnotA : is_named m (findStation m B) A = false).
  { destruct (is_named m (findStation m B) A) eqn:HA; [|reflexivity].
    exfalso. apply H12.
    unfold is_named in HA, Hp.
    apply andb_true_iff in HA. destruct HA as [_ HA].
    apply andb_true_iff in Hp. destruct Hp as [_ Hp].
    apply String.eqb_eq in HA, Hp. now rewrite <- HA, Hp. }
  assert (HfindA' : find (fun p => is_named m p A) (before ++ after)
                    = Some (findStation m A)).
  { rewrite <- (find_skips _ before after (findStation m B)) by exact HnotA.
    now rewrite <- Hl. }
  repeat split; auto.
  - rewrite Hitems. apply find_some in HfindA'. tauto.
  - rewrite findStation_find, Hitems.
    rewrite (find_pointwise _ (fun p => is_named m p A)); [now rewrite HfindA'|].
    intros p. subst m'. apply store_is_named, merged_name.
Qed.

(** *** Claims about the manager *)



(** C5.  [mergeStations] with the same name twice answers false, and so
    does [mergeStations] whose second name is borne by no station of the
    sequence; in both cases the manager that comes back is the one that
    went in: same sequence, same station objects. *)
Theorem mergeStations_degenerate (m : t) (A : string) :
  mergeStations m A A = (false, m)
  /\ forall X, (forall p, In p (items m) -> is_named m p X = false) ->
               mergeStations m A X = (false, m).
Proof.
  split.
  - unfold mergeStations. rewrite N.eqb_refl. cbn [negb].
    now rewrite andb_false_r.
  - intros X H. unfold mergeStations.
    rewrite (findStation_missing m X H). rewrite N.eqb_refl. cbn [negb].
    now rewrite andb_false_r.
Qed.

Lemma mergeStations_degenerate_witness :
  mergeStations Sample.manager "Grill Station" "Grill Station" = (false, Sample.manager)
  /\ mergeStations Sample.manager "Grill Station" "Fry Station" = (false, Sample.manager).
Proof.
  split.
  - apply (proj1 (mergeStations_degenerate Sample.manager "Grill Station")).
  - apply (proj2 (mergeStations_degenerate Sample.manager "Grill Station")).
    simpl. intros p [<-|[<-|[<-|[]]]]; reflexivity.
Defined.

(** C10.  After a successful [mergeStations] of names A and B, the
    sequence is the former one without the first entry whose station is
    named B, which is the station B resolved to: the entries before it and
    after it are all there, in their order.  The station A resolved to is
    still in the sequence and A still resolves to it. *)
Theorem mergeStations_sequence (m m' : t) (A B : string) :
  mergeStations m A B = (true, m') ->
  exists before after,
    items m = before ++ findStation m B :: after
    /\ (forall p, In p before -> is_named m p B = false)
    /\ is_named m (findStation m B) B = true
    /\ items m' = before ++ after
    /\ In (findStation m A) (items m')
    /\ findStation m' A = findStation m A.
Proof. apply mergeStations_removes_first. Qed.

Lemma mergeStations_sequence_witness :
  exists before after,
    items Sample.manager
    = before ++ findStation Sample.manager "Prep Station" :: after
    /\ (forall p, In p before -> is_named Sample.manager p "Prep Station" = false)
    /\ is_named Sample.manager (findStation Sample.manager "Prep Station")
         "Prep Station" = true
    /\ items (snd (mergeStations Sample.manager "Grill Station" "Prep Station"))
       = before ++ after
    /\ In (findStation Sample.manager "Grill Station")
         (items (snd (mergeStations Sample.manager "Grill Station" "Prep Station")))
    /\ findStation
         (snd (mergeStations Sample.manager "Grill Station" "Prep Station"))
         "Grill Station"
       = findStation Sample.manager "Grill Station".
Proof.
  apply (mergeStations_sequence Sample.manager
           (snd (mergeStations Sample.manager "Grill Station" "Prep Station"))
           "Grill Station" "Prep Station").
  reflexivity.
Defined.

(** C4, as amended.  After a successful [mergeStations] of names A and B,
    the roster of the station A resolved to holds every dish pointer of
    its own former roster and of the former roster of the station B
    resolved to.  Its stock is the name-wise sum of the two stocks: under
    every ingredient name the entry found holds what A held with the
    quantities of B's entries of that name added to it in [int]
    arithmetic, B's first one starting the entry when A had none; so when
    B's stock had one entry per name the quantity is A's plus B's, A's
    alone, B's alone, or no entry at all when neither had the name.  A
    stock of A with one entry per name has one entry per name afterwards,
    and the totals by name add up.  A still resolves to the same station;
    and when only one entry of the sequence designated a station named B,
    [findStation] of B answers [nullptr]. *)
Theorem mergeStations_contents (m m' : t) (A B : string) :
  mergeStations m A B = (true, m') ->
  let station1 := findStation m A in
  let station2 := findStation m B in
  let stock1 := KitchenStation.ingredients_stock_ (stations m station1) in
  let stock2 := KitchenStation.ingredients_stock_ (stations m station2) in
  let stock1' := KitchenStation.ingredients_stock_ (stations m' station1) in
  (forall d, In d (KitchenStation.dishes_ (stations m station1))
             \/ In d (KitchenStation.dishes_ (stations m station2)) ->
             In d (KitchenStation.dishes_ (stations m' station1)))
  /\ (forall n,
        stock_quantity n stock1'
        = name_wise_sum (stock_quantity n stock1) (quantities_named n stock2))
  /\ (NoDup (stock_names stock2) ->
      forall n,
        stock_quantity n stock1'
        = match stock_quantity n stock1, stock_quantity n stock2 with
          | Some a, Some b => Some (Int.add a b)
          | Some a, None => Some a
          | None, Some b => Some b
          | None, None => None
          end)
  /\ (NoDup (stock_names stock1) -> NoDup (stock_names stock1'))
  /\ (forall n, stock_total n stock1'
                = Int.add (stock_total n stock1) (stock_total n stock2))
  /\ findStation m' A = station1
  /\ (count_named m B = 1%nat -> findStation m' B = nullptr).
Proof.
  intros H station1 station2 stock1 stock2 stock1'.
  pose proof (mergeStations_removes_first m m' A B H)
    as [before [after [Hl [Hb [Hp [Hitems [_ HA]]]]]]].
  apply mergeStations_success in H.
  destruct H as [H1 [H2 [H12 Hm']]]. fold station1 station2 in H1, H2, H12, Hm'.
  assert (Hobj : stations m' station1 = merged m station1 station2).
  { subst m'. simpl. now rewrite N.eqb_refl. }
  assert (Hsum : forall n,
             stock_quantity n stock1'
             = name_wise_sum (stock_quantity n stock1) (quantities_named n stock2)).
  { intros n. unfold stock1'. rewrite Hobj. unfold merged.
    rewrite stock_quantity_replenish_all, assign_all_stock. reflexivity. }
  unfold stock1'. rewrite Hobj. unfold merged.
  split; [|split; [|split; [|split; [|split; [|split]]]]].
  - intros d Hd. rewrite replenish_all_dishes.
    destruct Hd as [Hd|Hd]; [now apply assign_all_keeps | now apply assign_all_has].
  - intros n. specialize (Hsum n). unfold stock1' in Hsum.
    rewrite Hobj in Hsum. exact Hsum.
  - intros Hnd n. specialize (Hsum n). unfold stock1' in Hsum.
    rewrite Hobj in Hsum. unfold merged in Hsum. rewrite Hsum.
    unfold KitchenStation.getIngredientsStock.
    rewrite (quantities_named_unique n stock2 Hnd).
    destruct (stock_quantity n stock1), (stock_quantity n stock2); reflexivity.
  - intros Hnd. apply replenish_all_unique_names.
    now rewrite assign_all_stock.
  - intros n. rewrite stock_total_replenish_all, assign_all_stock. reflexivity.
  - exact HA.
  - intros Hone. apply findStation_missing. intros p Hin.
    rewrite Hitems in Hin.
    replace (is_named m' p B) with (is_named m p B)
      by (subst m'; symmetry; apply store_is_named, merged_name).
    unfold count_named in Hone. rewrite Hl, filter_app in Hone. simpl in Hone.
    fold station2 in Hone, Hp, Hb. rewrite Hp in Hone.
    rewrite (filter_all_false _ before Hb) in Hone. simpl in Hone.
    apply in_app_or in Hin. destruct Hin as [Hin|Hin]; [now apply Hb|].
    apply (filter_none (fun p => is_named m p B) after); [|exact Hin].
    destruct (filter (fun p => is_named m p B) after); [reflexivity|discriminate].
Qed.

(** The grill holds 30 tomatoes and 20 lettuces, the prep station 5
    tomatoes: merged, the grill holds 35 tomatoes in one entry and its 20
    lettuces, and "Prep Station" no longer resolves.  The dessert station
    holds nothing: merged with the prep station it holds the 5 tomatoes. *)
Lemma mergeStations_contents_witness :
  let m' := snd (mergeStations Sample.manager "Grill Station" "Prep Station") in
  let stock1' := KitchenStation.ingredients_stock_ (stations m' 10%N) in
  let m'' := snd (mergeStations Sample.manager "Dessert Station" "Prep Station") in
  let stock3' := KitchenStation.ingredients_stock_ (stations m'' 30%N) in
  stock_quantity "Tomato" stock1' = Some 35
  /\ stock_quantity "Lettuce" stock1' = Some 20
  /\ stock_quantity "Basil" stock1' = None
  /\ NoDup (stock_names stock1')
  /\ findStation m' "Prep Station" = nullptr
  /\ stock_quantity "Tomato" stock3' = Some 5.
Proof.
  destruct (mergeStations_contents Sample.manager
              (snd (mergeStations Sample.manager "Grill Station" "Prep Station"))
              "Grill Station" "Prep Station" eq_refl)
    as [_ [_ [Hsum [Hunique [_ [_ Hgone]]]]]].
  destruct (mergeStations_contents Sample.manager
              (snd (mergeStations Sample.manager "Dessert Station" "Prep Station"))
              "Dessert Station" "Prep Station" eq_refl)
    as [_ [_ [Hsum3 _]]].
  assert (Hnd2 : NoDup (stock_names
                          (KitchenStation.ingredients_stock_
                             (stations Sample.manager
                                (findStation Sample.manager "Prep Station"))))).
  { simpl. repeat constructor. simpl. tauto. }
  assert (Hnd1 : NoDup (stock_names
                          (KitchenStation.ingredients_stock_
                             (stations Sample.manager
                                (findStation Sample.manager "Grill Station"))))).
  { simpl. repeat constructor; simpl; intuition discriminate. }
  cbv zeta. split; [|split; [|split; [|split; [|split]]]].
  - exact (Hsum Hnd2 "Tomato").
  - exact (Hsum Hnd2 "Lettuce").
  - exact (Hsum Hnd2 "Basil").
  - exact (Hunique Hnd1).
  - exact (Hgone eq_refl).
  - exact (Hsum3 Hnd2 "Tomato").
Defined.

(** C4 as stated fails when two stations bear the name B: the merge
    removes the first of them and [findStation] then answers the second. *)
Lemma mergeStations_namesake_counterexample :
  findStation Sample.manager_two_preps "Grill Station" = 10%N
  /\ findStation Sample.manager_two_preps "Prep Station" = 20%N
  /\ fst (mergeStations Sample.manager_two_preps "Grill Station" "Prep Station") = true
  /\ findStation
       (snd (mergeStations Sample.manager_two_preps "Grill Station" "Prep Station"))
       "Prep Station" <> nullptr.
Proof.
  repeat split; try reflexivity. discriminate.
Qed.

(** *** Further facts and checks *)

(** X20.  The roster that [mergeStations] fills keeps the dish pointers of the
    station it then deletes, whose destructor deletes those very dishes. *)
Lemma mergeStations_shares_deleted_dishes (m m' : t) (A B : string) (d : addr) :
  mergeStations m A B = (true, m') ->
  In d (KitchenStation.dishes_ (stations m (findStation m B))) ->
  In d (KitchenStation.dishes_ (stations m' (findStation m A)))
  /\ In d (deleted_dishes m').
Proof.
  intros H Hd. apply mergeStations_success in H.
  destruct H as [H1 [H2 [H12 Hm']]]. subst m'. simpl. rewrite N.eqb_refl.
  split.
  - unfold merged. rewrite replenish_all_dishes. now apply assign_all_has.
  - apply in_or_app. left.
    destruct (N.eqb_spec (findStation m B) (findStation m A)) as [Heq|_];
      [now contradiction H12 | exact Hd].
Qed.

Example main_run_answers :
  let '(foundStation, canCompleteOrder, dishPrepared, m) := Sample.main_run in
  foundStation = 10%N
  /\ canCompleteOrder = true
  /\ dishPrepared = true
  /\ items m = [10%N]
  /\ stations m 10%N
     = KitchenStation.mk "Grill Station" [1%N]
         [Sample.tomato 28 0; Sample.lettuce 19 0]
  /\ deleted_stations m = [30%N; 20%N].
Proof. vm_compute. repeat split. Qed.

(** The second merge scenario of the spec: "Grill" with a dish and
    Tomato x 5, "Prep" with another dish and Lettuce x 3. *)
Example merge_scenario :
  let objects := fun a : addr =>
    match a with
    | 1%N => KitchenStation.mk "Grill" [1%N] [Sample.tomato 5 0]
    | _ => KitchenStation.mk "Prep" [2%N] [Sample.lettuce 3 0]
    end in
  let m := mk objects [1%N; 2%N] [] [] in
  let m' := snd (mergeStations m "Grill" "Prep") in
  stations m' 1%N
  = KitchenStation.mk "Grill" [1%N; 2%N] [Sample.tomato 5 0; Sample.lettuce 3 0]
  /\ findStation m' "Prep" = nullptr.
Proof. vm_compute. split; reflexivity. Qed.

End StationManagerFacts.

(** ** Dishes: names, cuisine and equality *)

Module DishFacts.

Import DishOps.

Lemma isValidName_chars (n : string) :
  isValidName n = true
  <-> Forall (fun c => isalpha c = true \/ isspace c = true) (list_ascii_of_string n).
Proof.
  induction n as [|c rest IH]; cbn [isValidName list_ascii_of_string].
  - split; [constructor | reflexivity].
  - destruct (isalpha c) eqn:Ha; cbn [negb andb].
    + rewrite IH. split; [intros H; constructor; auto | intros H; now inversion H].
    + destruct (isspace c) eqn:Hs; cbn [negb andb].
      * rewrite IH. split; [intros H; constructor; auto | intros H; now inversion H].
      * split; [discriminate|]. intros H. inversion H as [|? ? Hc _].
        destruct Hc; congruence.
Qed.

Lemma setName_name (d : Dish) (n : string) :
  getName (setName d n) = if isValidName n then n else "UNKNOWN".
Proof. unfold setName. destruct (isValidName n); reflexivity. Qed.

(** X23.  The name a dish reports is always made of letters and spaces: both
    constructors and [setName] establish it, whatever name they are given,
    and the other setters leave the name alone. *)
Theorem dish_name_always_valid :
  isValidName (getName default_constructor) = true
  /\ (forall n l t p c, isValidName (getName (constructor n l t p c)) = true)
  /\ (forall d n, isValidName (getName (setName d n)) = true)
  /\ (forall d l t p c,
        getName (setIngredients d l) = getName d
        /\ getName (setPrepTime d t) = getName d
        /\ getName (setPrice d p) = getName d
        /\ getName (setCuisineType d c) = getName d).
Proof.
  assert (H : forall d n, isValidName (getName (setName d n)) = true).
  { intros d n. rewrite setName_name.
    destruct (isValidName n) eqn:Hn; [exact Hn | reflexivity]. }
  repeat split; [intros; apply H | exact H].
Qed.

(** X24.  [setName] keeps the name it is given exactly when every character of
    it is a letter or a space (the empty name included), and stores
    "UNKNOWN" otherwise; giving a dish the name it already reports changes
    nothing. *)
Theorem setName_keeps_valid_names (d : Dish) (n : string) :
  (getName (setName d n) = n
   <-> Forall (fun c => isalpha c = true \/ isspace c = true) (list_ascii_of_string n))
  /\ (isValidName n = false -> getName (setName d n) = "UNKNOWN")
  /\ setName (setName d n) (getName (setName d n)) = setName d n.
Proof.
  rewrite <- isValidName_chars, setName_name. repeat split.
  - destruct (isValidName n) eqn:Hn; [reflexivity|].
    intros H. rewrite <- H in Hn. discriminate.
  - intros H. now rewrite H.
  - intros H. now rewrite H.
  - unfold setName at 2 3. unfold getName.
    destruct (isValidName n) eqn:Hn; simpl; unfold setName; simpl.
    + now rewrite Hn.
    + reflexivity.
Qed.

Lemma setName_keeps_valid_names_witness :
  getName (setName default_constructor "Pasta 5") = "UNKNOWN"
  /\ getName (setName default_constructor "Pasta al Forno") = "Pasta al Forno".
Proof.
  split.
  - apply (proj1 (proj2 (setName_keeps_valid_names default_constructor "Pasta 5"))).
    reflexivity.
  - apply (proj1 (setName_keeps_valid_names default_constructor "Pasta al Forno")).
    simpl.
    repeat first [ apply Forall_nil
                 | apply Forall_cons;
                   [first [left; reflexivity | right; reflexivity]|] ].
Defined.

(** X25.  The seven cuisine types print as seven different strings. *)
Theorem getCuisineType_injective (a b : Dish) :
  getCuisineType a = getCuisineType b -> cuisine_type_ a = cuisine_type_ b.
Proof.
  unfold getCuisineType.
  destruct (cuisine_type_ a), (cuisine_type_ b); intros H;
    first [reflexivity | discriminate H].
Qed.

Lemma getCuisineType_injective_witness :
  cuisine_type_ Sample.soup = cuisine_type_ Sample.cold_soup.
Proof.
  apply (getCuisineType_injective Sample.soup Sample.cold_soup). reflexivity.
Defined.

Lemma double_eq_sym (x y : double) : double_eq x y = double_eq y x.
Proof.
  unfold double_eq. rewrite (Z.eqb_sym (double_bits x)).
  destruct (double_is_nan x), (double_is_nan y),
    (double_is_zero x), (double_is_zero y), (double_bits y =? double_bits x)%Z;
    reflexivity.
Qed.

Lemma double_eq_refl (x : double) : double_eq x x = negb (double_is_nan x).
Proof.
  unfold double_eq. rewrite Z.eqb_refl. destruct (double_is_nan x); reflexivity.
Qed.

Lemma double_eq_trans (x y z : double) :
  double_eq x y = true -> double_eq y z = true -> double_eq x z = true.
Proof.
  unfold double_eq, double_is_zero, double_is_nan.
  destruct (Z.eqb_spec (double_bits x) (double_bits y)) as [<-|Hxy];
    [intros _ H; exact H|].
  destruct (Z.eqb_spec (double_bits y) (double_bits z)) as [<-|Hyz].
  - intros H _. destruct (Z.eqb_spec (double_bits x) (double_bits y)); [contradiction|].
    exact H.
  - intros H1 H2.
    repeat match goal with
           | H : _ && _ = true |- _ => apply andb_true_iff in H; destruct H
           | H : _ || _ = true |- _ => apply orb_true_iff in H; destruct H
           end; try discriminate.
    repeat (apply andb_true_iff; split); auto.
    apply orb_true_iff. right. apply andb_true_iff. split; assumption.
Qed.

Lemma CuisineType_eq_true (a b : CuisineType) : CuisineType_eq a b = true <-> a = b.
Proof. destruct a, b; simpl; split; intros H; first [reflexivity | discriminate H]. Qed.

Lemma equal_parts (a b : Dish) :
  equal a b = true
  <-> name_ a = name_ b /\ prep_time_ a = prep_time_ b
      /\ double_eq (price_ a) (price_ b) = true
      /\ cuisine_type_ a = cuisine_type_ b.
Proof.
  unfold equal. rewrite !andb_true_iff, String.eqb_eq, Z.eqb_eq, CuisineType_eq_true.
  tauto.
Qed.

(** X26.  [operator==] is symmetric and transitive, and a dish equals itself
    unless its price is a NaN, in which case it equals no dish at all, itself
    included; the ingredient list plays no part: replacing it leaves the
    answer of every comparison as it was. *)
Theorem dish_equality (a b c : Dish) (l : list Ingredient) :
  equal a b = equal b a
  /\ (equal a b = true -> equal b c = true -> equal a c = true)
  /\ equal a a = negb (double_is_nan (price_ a))
  /\ (double_is_nan (price_ a) = true -> equal a b = false)
  /\ equal (setIngredients a l) b = equal a b.
Proof.
  repeat split.
  - unfold equal.
    rewrite (String.eqb_sym (name_ a)), (Z.eqb_sym (prep_time_ a)), double_eq_sym.
    f_equal. destruct (cuisine_type_ a), (cuisine_type_ b); reflexivity.
  - rewrite !equal_parts. intros [H1 [H2 [H3 H4]]] [H1' [H2' [H3' H4']]].
    repeat split; try congruence. now apply (double_eq_trans _ (price_ b)).
  - unfold equal. rewrite String.eqb_refl, Z.eqb_refl, double_eq_refl.
    destruct (cuisine_type_ a); simpl; now rewrite andb_true_r.
  - intros Hnan. unfold equal, double_eq. rewrite Hnan. simpl.
    rewrite andb_false_r. reflexivity.
Qed.

Lemma dish_equality_witness :
  equal Sample.soup (setIngredients Sample.soup []) = true.
Proof.
  apply (proj1 (proj2 (dish_equality Sample.soup Sample.soup
                         (setIngredients Sample.soup []) []))); reflexivity.
Defined.

End DishFacts.

(** ** One station: rosters, frames and reachable states *)

Module KitchenStationMore.

Import KitchenStation.

Lemma already_assigned_iff (dishes : list addr) (d : addr) :
  already_assigned dishes d = true <-> In d dishes.
Proof.
  induction dishes as [|x rest IH]; simpl.
  - split; [discriminate | contradiction].
  - destruct (N.eqb_spec x d) as [->|Hne].
    + split; auto.
    + rewrite IH. split; [auto | intros [H|H]; [contradiction | exact H]].
Qed.

Lemma already_assigned_false (dishes : list addr) (d : addr) :
  already_assigned dishes d = false <-> ~ In d dishes.
Proof.
  rewrite <- already_assigned_iff. destruct (already_assigned dishes d); split;
    intros H; try reflexivity; try discriminate; try (intros H'; discriminate).
  now contradiction H.
Qed.

(** X1.  [assignDishToStation] answers false exactly when the pointer is already
    in the roster, and then hands the station back as it was; otherwise it
    answers true and the pointer is the new last entry of the roster, the
    name and the stock being untouched. *)
Theorem assignDish_answer (s : t) (d : addr) :
  (fst (assignDishToStation s d) = false <-> In d (dishes_ s))
  /\ (In d (dishes_ s) -> assignDishToStation s d = (false, s))
  /\ (~ In d (dishes_ s) ->
      assignDishToStation s d
      = (true, mk (station_name_ s) (dishes_ s ++ [d]) (ingredients_stock_ s))).
Proof.
  unfold assignDishToStation.
  destruct (already_assigned (dishes_ s) d) eqn:H.
  - apply already_assigned_iff in H. simpl. repeat split; auto.
    intros Hout. contradiction.
  - apply already_assigned_false in H. simpl. repeat split; auto.
    + discriminate.
    + intros Hin. contradiction.
    + intros Hin. contradiction.
Qed.

Lemma assignDish_answer_witness :
  assignDishToStation Sample.grill 1%N = (false, Sample.grill)
  /\ assignDishToStation Sample.grill 2%N
     = (true, mk "Grill Station" [1%N; 2%N] [Sample.tomato 30 0; Sample.lettuce 20 0]).
Proof.
  split.
  - apply (proj1 (proj2 (assignDish_answer Sample.grill 1%N))). simpl. auto.
  - apply (proj2 (proj2 (assignDish_answer Sample.grill 2%N))).
    simpl. intros [H|[]]. discriminate H.
Defined.

Lemma assignDish_NoDup (s : t) (d : addr) :
  NoDup (dishes_ s) -> NoDup (dishes_ (snd (assignDishToStation s d))).
Proof.
  intros Hnd. unfold assignDishToStation.
  destruct (already_assigned (dishes_ s) d) eqn:H; simpl; [exact Hnd|].
  apply already_assigned_false in H.
  apply NoDup_app; [exact Hnd | repeat constructor; intros [] |].
  intros x Hx [Hx'|[]]. subst. contradiction.
Qed.

(** X2.  A roster without a repeated pointer stays so under
    [assignDishToStation], and assigning the same pointer a second time
    always answers false and changes nothing. *)
Theorem assignDish_no_duplicates (s : t) (d : addr) :
  (NoDup (dishes_ s) -> NoDup (dishes_ (snd (assignDishToStation s d))))
  /\ assignDishToStation (snd (assignDishToStation s d)) d
     = (false, snd (assignDishToStation s d)).
Proof.
  split; [apply assignDish_NoDup|].
  unfold assignDishToStation at 1.
  replace (already_assigned (dishes_ (snd (assignDishToStation s d))) d) with true;
    [reflexivity|].
  symmetry. apply already_assigned_iff. apply StationManagerFacts.assignDish_has.
Qed.

Lemma assignDish_no_duplicates_witness :
  NoDup (dishes_ (snd (assignDishToStation Sample.prep 1%N))).
Proof.
  apply (proj1 (assignDish_no_duplicates Sample.prep 1%N)).
  simpl. repeat constructor; simpl; intuition discriminate.
Defined.

(** *** Replenishing *)

Lemma stock_entry_replenish_other (n : string) (stock : list Ingredient) (i : Ingredient) :
  n <> name i ->
  stock_entry n (replenish_stock stock i) = stock_entry n stock.
Proof.
  unfold stock_entry. intros Hne.
  induction stock as [|e rest IH]; simpl.
  - eqb_cases (name i) n; [congruence | reflexivity].
  - eqb_cases (name e) (name i); simpl.
    + eqb_cases (name e) n; [congruence | reflexivity].
    + now rewrite IH.
Qed.

Lemma replenish_stock_absent (stock : list Ingredient) (i : Ingredient) :
  stock_entry (name i) stock = None -> replenish_stock stock i = stock ++ [i].
Proof.
  unfold stock_entry.
  induction stock as [|e rest IH]; simpl; [reflexivity|].
  eqb_cases (name e) (name i); [discriminate|].
  intros H. now rewrite IH.
Qed.

Lemma replenish_stock_present (stock : list Ingredient) (i e : Ingredient) :
  stock_entry (name i) stock = Some e ->
  List.length (replenish_stock stock i) = List.length stock.
Proof.
  unfold stock_entry. revert e.
  induction stock as [|x rest IH]; simpl; intros e; [discriminate|].
  eqb_cases (name x) (name i); simpl; [reflexivity|].
  intros H. now rewrite (IH e).
Qed.

(** X3.  After [replenishStationIngredients] the stock has an entry of the
    ingredient's name; the first entry under every other name is what it
    was; the station's name and roster are untouched.  An ingredient whose
    name was absent is appended verbatim as the last entry, and otherwise
    the stock keeps its length. *)
Theorem replenish_frame (s : t) (i : Ingredient) :
  let s' := replenishStationIngredients s i in
  station_name_ s' = station_name_ s
  /\ dishes_ s' = dishes_ s
  /\ (exists e, stock_entry (name i) (ingredients_stock_ s') = Some e)
  /\ (forall n, n <> name i ->
        stock_entry n (ingredients_stock_ s') = stock_entry n (ingredients_stock_ s))
  /\ (stock_entry (name i) (ingredients_stock_ s) = None ->
      ingredients_stock_ s' = ingredients_stock_ s ++ [i])
  /\ (stock_entry (name i) (ingredients_stock_ s) <> None ->
      List.length (ingredients_stock_ s') = List.length (ingredients_stock_ s)).
Proof.
  simpl. repeat split.
  - rewrite KitchenStationFacts.stock_entry_replenish. eauto.
  - intros n Hn. now apply stock_entry_replenish_other.
  - apply replenish_stock_absent.
  - destruct (stock_entry (name i) (ingredients_stock_ s)) as [e|] eqn:He.
    + intros _. now apply (replenish_stock_present _ _ e).
    + intros H. now contradiction H.
Qed.

Lemma replenish_frame_witness :
  ingredients_stock_ (replenishStationIngredients Sample.dessert (Sample.tomato 4 0))
  = [Sample.tomato 4 0].
Proof.
  apply (replenish_frame Sample.dessert (Sample.tomato 4 0)). reflexivity.
Defined.

Lemma found_in_stock_replenish (stock : list Ingredient) (i ing : Ingredient) :
  0 <= quantity i ->
  (forall e, stock_entry (name i) stock = Some e ->
             Int.in_range (quantity e + quantity i)) ->
  found_in_stock stock ing = true ->
  found_in_stock (replenish_stock stock i) ing = true.
Proof.
  intros Hq. unfold stock_entry.
  induction stock as [|e rest IH]; simpl; intros Hr Hf; [discriminate|].
  eqb_cases (name e) (name i); simpl.
  - specialize (Hr e eq_refl).
    unfold Int.add. rewrite (IntFacts.wrap_small _ Hr).
    destruct (String.eqb (name e) (name ing)) eqn:Hn; simpl in *; [|exact Hf].
    destruct (Z.leb_spec (required_quantity ing) (quantity e)) as [Hle|Hgt].
    + destruct (Z.leb_spec (required_quantity ing) (quantity e + quantity i));
        [reflexivity | lia].
    + destruct (required_quantity ing <=? quantity e + quantity i)%Z;
        [reflexivity | exact Hf].
  - destruct (String.eqb (name e) (name ing)
              && (required_quantity ing <=? quantity e)%Z); [reflexivity|].
    apply IH; assumption.
Qed.

Lemma all_found_replenish (stock ings : list Ingredient) (i : Ingredient) :
  0 <= quantity i ->
  (forall e, stock_entry (name i) stock = Some e ->
             Int.in_range (quantity e + quantity i)) ->
  all_found stock ings = true ->
  all_found (replenish_stock stock i) ings = true.
Proof.
  intros Hq Hr. induction ings as [|ing rest IH]; simpl; [reflexivity|].
  destruct (found_in_stock stock ing) eqn:Hf; [|discriminate].
  intros H. rewrite (found_in_stock_replenish _ _ _ Hq Hr Hf). now apply IH.
Qed.

(** X4.  Replenishing never turns a feasible order into an infeasible one, as
    long as the quantity added is not negative and adding it to the entry of
    that name, if there is one, stays within [int]. *)
Theorem replenish_keeps_feasible (D : DishStore) (s : t) (i : Ingredient) (d : string) :
  0 <= quantity i ->
  (forall e, stock_entry (name i) (ingredients_stock_ s) = Some e ->
             Int.in_range (quantity e + quantity i)) ->
  canCompleteOrder D s d = true ->
  canCompleteOrder D (replenishStationIngredients s i) d = true.
Proof.
  intros Hq Hr. unfold canCompleteOrder. simpl.
  induction (dishes_ s) as [|dish rest IH]; simpl; [discriminate|].
  destruct (String.eqb (name_ (D dish)) d); [|exact IH].
  now apply all_found_replenish.
Qed.

Lemma replenish_keeps_feasible_witness :
  canCompleteOrder Sample.dishes
    (replenishStationIngredients Sample.grill (Sample.tomato 5 0))
    "Grilled Chicken Sandwich" = true.
Proof.
  apply (replenish_keeps_feasible Sample.dishes Sample.grill (Sample.tomato 5 0)
           "Grilled Chicken Sandwich").
  - simpl. lia.
  - intros e He. vm_compute in He. injection He as <-.
    unfold Int.in_range, Int.min_int, Int.max_int. simpl. lia.
  - reflexivity.
Defined.

Lemma canComplete_scan_app (D : DishStore) (stock : list Ingredient)
      (l1 l2 : list addr) (d : string) :
  (exists x, In x l1 /\ name_ (D x) = d) ->
  canComplete_scan D stock (l1 ++ l2) d = canComplete_scan D stock l1 d.
Proof.
  induction l1 as [|x rest IH]; simpl; intros [y [Hy Hd]]; [contradiction|].
  eqb_cases (name_ (D x)) d; [reflexivity|].
  apply IH. destruct Hy as [Hy|Hy]; [subst; contradiction | eauto].
Qed.

(** X5.  Assigning one more dish never changes the answer of [canCompleteOrder]
    for a dish name the roster already has: the new pointer goes to the end
    and the scan stops at the first dish of the name. *)
Theorem assignDish_keeps_feasibility (D : DishStore) (s : t) (p : addr) (d : string) :
  (exists x, In x (dishes_ s) /\ name_ (D x) = d) ->
  canCompleteOrder D (snd (assignDishToStation s p)) d = canCompleteOrder D s d.
Proof.
  intros H. unfold canCompleteOrder, assignDishToStation.
  destruct (already_assigned (dishes_ s) p); simpl; [reflexivity|].
  now apply canComplete_scan_app.
Qed.

Lemma assignDish_keeps_feasibility_witness :
  canCompleteOrder Sample.dishes (snd (assignDishToStation Sample.pantry 4%N)) "Soup"
  = canCompleteOrder Sample.dishes Sample.pantry "Soup".
Proof.
  apply (assignDish_keeps_feasibility Sample.dishes Sample.pantry 4%N "Soup").
  exists 2%N. simpl. auto.
Defined.

(** *** Preparing *)

Lemma use_dishes_length (D : DishStore) (d : string) (dishes : list addr)
      (stock : list Ingredient) :
  List.length (use_dishes D stock dishes d) = List.length stock.
Proof.
  rewrite <- (length_map name (use_dishes D stock dishes d)),
          <- (length_map name stock).
  f_equal. apply KitchenStationFacts.use_dishes_names.
Qed.

(** X6.  [prepareDish] never touches the station's name or roster, never adds a
    stock entry and never brings in a new ingredient name, whether it
    answers true or false. *)
Theorem prepareDish_frame (D : DishStore) (s : t) (d : string) :
  let s' := snd (prepareDish D s d) in
  station_name_ s' = station_name_ s
  /\ dishes_ s' = dishes_ s
  /\ incl (stock_names (ingredients_stock_ s')) (stock_names (ingredients_stock_ s))
  /\ (List.length (ingredients_stock_ s') <= List.length (ingredients_stock_ s))%nat.
Proof.
  unfold prepareDish. destruct (negb (canCompleteOrder D s d)); simpl.
  - repeat split; [apply incl_refl | lia].
  - repeat split.
    + intros n Hn. apply KitchenStationFacts.filter_names_incl in Hn.
      now rewrite KitchenStationFacts.use_dishes_names in Hn.
    + unfold remove_depleted.
      rewrite <- (use_dishes_length D d (dishes_ s) (ingredients_stock_ s)).
      apply filter_length_le.
Qed.

Lemma use_dishes_keeps (D : DishStore) (d : string) (dishes : list addr)
      (stock : list Ingredient) (x : Ingredient) :
  In x stock ->
  (forall dish, In dish dishes -> name_ (D dish) = d ->
     forall di, In di (ingredients_ (D dish)) -> name di <> name x) ->
  In x (use_dishes D stock dishes d).
Proof.
  revert stock. induction dishes as [|dish rest IH]; simpl; intros stock Hin H;
    [exact Hin|].
  eqb_cases (name_ (D dish)) d.
  - apply IH; [|intros; eapply H; eauto].
    apply KitchenStationFacts.use_ingredients_keeps; [exact Hin|].
    intros di Hdi. apply (H dish); auto.
  - apply IH; [exact Hin | intros; eapply H; eauto].
Qed.

Lemma required_names_spec (D : DishStore) (s : t) (d : string) (dish : addr)
      (di : Ingredient) :
  In dish (dishes_ s) -> name_ (D dish) = d -> In di (ingredients_ (D dish)) ->
  In (name di) (required_names D s d).
Proof.
  intros Hdish Hd Hdi. unfold required_names. apply in_flat_map.
  exists dish. split; [exact Hdish|].
  apply String.eqb_eq in Hd. rewrite Hd. now apply in_map.
Qed.

(** X7.  After a [prepareDish] that answers true no stock entry has quantity 0,
    and that includes entries the dish does not use; every entry whose name
    no roster dish of that name requires is still there, unchanged, unless
    its quantity was 0. *)
Theorem prepareDish_sweeps_zeros (D : DishStore) (s : t) (d : string) :
  fst (prepareDish D s d) = true ->
  let s' := snd (prepareDish D s d) in
  (forall y, In y (ingredients_stock_ s') -> quantity y <> 0)
  /\ (forall x, In x (ingredients_stock_ s) ->
        ~ In (name x) (required_names D s d) ->
        quantity x <> 0 -> In x (ingredients_stock_ s')).
Proof.
  unfold prepareDish. destruct (negb (canCompleteOrder D s d)); simpl;
    [discriminate|].
  intros _. split.
  - intros y. apply KitchenStationFacts.remove_depleted_nonzero.
  - intros x Hx Hfree Hq. apply filter_In. split.
    + apply use_dishes_keeps; [exact Hx|].
      intros dish Hdish Hd di Hdi Hname. apply Hfree. rewrite <- Hname.
      now apply (required_names_spec D s d dish).
    + apply negb_true_iff, Z.eqb_neq. exact Hq.
Qed.

Lemma prepareDish_sweeps_zeros_witness :
  In (Sample.lettuce 7 0)
     (ingredients_stock_
        (snd (prepareDish Sample.dishes
                (mk "Prep" [2%N] [Sample.lettuce 0 0; Sample.tomato 2 0; Sample.lettuce 7 0])
                "Soup"))).
Proof.
  apply (prepareDish_sweeps_zeros Sample.dishes
           (mk "Prep" [2%N] [Sample.lettuce 0 0; Sample.tomato 2 0; Sample.lettuce 7 0])
           "Soup").
  - reflexivity.
  - simpl. auto.
  - simpl. intros [H|[]]. discriminate H.
  - simpl. lia.
Defined.

(** *** Stations reachable through the public methods *)

Lemma station_call_invariant (D : DishStore) (s : t) (c : StationCall) :
  NoDup (dishes_ s) /\ NoDup (stock_names (ingredients_stock_ s)) ->
  NoDup (dishes_ (station_call D s c))
  /\ NoDup (stock_names (ingredients_stock_ (station_call D s c))).
Proof.
  intros [Hd Hs]. destruct c as [n|dish|ingredient|dish_name]; simpl.
  - auto.
  - split; [now apply assignDish_NoDup|].
    unfold assignDishToStation.
    destruct (already_assigned (dishes_ s) dish); exact Hs.
  - split; [exact Hd | now apply KitchenStationFacts.replenish_names_NoDup].
  - unfold prepareDish. destruct (negb (canCompleteOrder D s dish_name)); simpl;
      [auto|].
    split; [exact Hd|].
    apply KitchenStationFacts.filter_names_NoDup.
    now rewrite KitchenStationFacts.use_dishes_names.
Qed.

Lemma station_calls_invariant (D : DishStore) (cs : list StationCall) (s : t) :
  NoDup (dishes_ s) /\ NoDup (stock_names (ingredients_stock_ s)) ->
  NoDup (dishes_ (station_calls D s cs))
  /\ NoDup (stock_names (ingredients_stock_ (station_calls D s cs))).
Proof.
  revert s. induction cs as [|c rest IH]; simpl; intros s H; [exact H|].
  apply IH. now apply station_call_invariant.
Qed.

(** X8.  Whatever sequence of [setName], [assignDishToStation],
    [replenishStationIngredients] and [prepareDish] calls is made on a
    station fresh from either constructor, its roster never holds a pointer
    twice and its stock never holds a name twice. *)
Theorem reachable_station_has_no_duplicates (D : DishStore) (cs : list StationCall) :
  (NoDup (dishes_ (station_calls D default_constructor cs))
   /\ NoDup (stock_names (ingredients_stock_ (station_calls D default_constructor cs))))
  /\ forall n,
       NoDup (dishes_ (station_calls D (constructor n) cs))
       /\ NoDup (stock_names (ingredients_stock_ (station_calls D (constructor n) cs))).
Proof.
  split; [|intros n]; apply station_calls_invariant; simpl; split; constructor.
Qed.

End KitchenStationMore.

(** ** The manager: adding, finding, removing, delegating *)

Module StationManagerMore.

Import StationManager.

Lemma is_named_not_null (m : t) (p : addr) (n : string) :
  is_named m p n = true -> p <> nullptr.
Proof.
  unfold is_named. intros H. apply andb_true_iff in H. destruct H as [H _].
  apply negb_true_iff, N.eqb_neq in H. exact H.
Qed.

Lemma is_named_name (m : t) (p : addr) (n : string) :
  is_named m p n = true -> KitchenStation.getName (stations m p) = n.
Proof.
  unfold is_named. intros H. apply andb_true_iff in H. destruct H as [_ H].
  now apply String.eqb_eq.
Qed.

Lemma is_named_two_names (m : t) (p : addr) (n n' : string) :
  is_named m p n = true -> n' <> n -> is_named m p n' = false.
Proof.
  intros H Hne. destruct (is_named m p n') eqn:H'; [|reflexivity].
  apply is_named_name in H, H'. congruence.
Qed.

Lemma find_app (f : addr -> bool) (l1 l2 : list addr) :
  find f (l1 ++ l2) = match find f l1 with Some x => Some x | None => find f l2 end.
Proof.
  induction l1 as [|x rest IH]; simpl; [reflexivity|].
  destruct (f x); [reflexivity | exact IH].
Qed.

Lemma findStation_cases (m : t) (n : string) :
  (findStation m n = nullptr /\ find (fun p => is_named m p n) (items m) = None)
  \/ (findStation m n <> nullptr
      /\ find (fun p => is_named m p n) (items m) = Some (findStation m n)
      /\ is_named m (findStation m n) n = true
      /\ In (findStation m n) (items m)).
Proof.
  rewrite StationManagerFacts.findStation_find.
  destruct (find (fun p => is_named m p n) (items m)) as [p|] eqn:Hf.
  - right. apply find_some in Hf as Hp. destruct Hp as [Hin Hp].
    repeat split; auto. now apply (is_named_not_null m p n).
  - left. auto.
Qed.

Lemma findStation_items (m : t) (l : list addr) (n : string) :
  findStation (set_items m l) n
  = match find (fun p => is_named m p n) l with Some p => p | None => nullptr end.
Proof. apply (StationManagerFacts.findStation_find (set_items m l) n). Qed.

Lemma findStation_same_objects (m1 m2 : t) (n : string) :
  stations m1 = stations m2 -> items m1 = items m2 ->
  findStation m1 n = findStation m2 n.
Proof.
  intros Hs Hi. rewrite !StationManagerFacts.findStation_find.
  unfold is_named. now rewrite Hs, Hi.
Qed.

(** *** addStation *)

Lemma addStation_run (m : t) (p : addr) :
  addStation m p = (true, set_items m (items m ++ [p])).
Proof.
  unfold addStation, LinkedList.insert, LinkedList.getLength.
  rewrite Nat.leb_refl, firstn_all, skipn_all. reflexivity.
Qed.

(** X9.  [addStation] always answers true and puts the pointer at the end of
    the sequence, whatever is already there.  A name that resolved before
    still resolves to the same station; a name that did not resolves to the
    new station if that one bears it, and to nothing otherwise. *)
Theorem addStation_appends (m : t) (p : addr) :
  addStation m p = (true, set_items m (items m ++ [p]))
  /\ forall n,
       findStation (snd (addStation m p)) n
       = if N.eqb (findStation m n) nullptr
         then (if is_named m p n then p else nullptr)
         else findStation m n.
Proof.
  split; [apply addStation_run|].
  intros n. rewrite addStation_run. cbn [snd].
  rewrite findStation_items, find_app. simpl.
  destruct (findStation_cases m n) as [[Hnull Hf]|[Hnn [Hf _]]]; rewrite Hf.
  - rewrite Hnull. simpl. destruct (is_named m p n); reflexivity.
  - apply N.eqb_neq in Hnn. rewrite Hnn. reflexivity.
Qed.

(** *** findStation *)

(** X10.  [findStation] answers [nullptr] exactly when no entry of the sequence
    is a non-null pointer to a station of that name; otherwise its answer is
    the first such entry. *)
Theorem findStation_first_match (m : t) (n : string) :
  (findStation m n = nullptr <-> forall p, In p (items m) -> is_named m p n = false)
  /\ (findStation m n <> nullptr ->
      exists before after,
        items m = before ++ findStation m n :: after
        /\ (forall p, In p before -> is_named m p n = false)
        /\ KitchenStation.getName (stations m (findStation m n)) = n).
Proof.
  destruct (findStation_cases m n) as [[Hnull Hf]|[Hnn [Hf [Hnamed Hin]]]].
  - split.
    + split; [intros _ p Hp; apply (find_none _ _ Hf p Hp) | intros _; exact Hnull].
    + intros H. contradiction.
  - split.
    + split; [intros H; contradiction|].
      intros H. rewrite (H _ Hin) in Hnamed. discriminate.
    + intros _.
      destruct (StationManagerFacts.find_first_split _ _ _ Hf)
        as [before [after [Hl [Hb _]]]].
      exists before, after. repeat split; auto. now apply is_named_name.
Qed.

Lemma findStation_first_match_witness :
  exists before after,
    items Sample.manager = before ++ findStation Sample.manager "Prep Station" :: after
    /\ (forall p, In p before -> is_named Sample.manager p "Prep Station" = false)
    /\ KitchenStation.getName
         (stations Sample.manager (findStation Sample.manager "Prep Station"))
       = "Prep Station".
Proof.
  apply (proj2 (findStation_first_match Sample.manager "Prep Station")).
  vm_compute. discriminate.
Defined.

(** *** removeStation *)

Lemma removeStation_run (m : t) (n : string) :
  findStation m n <> nullptr ->
  exists before after,
    items m = before ++ findStation m n :: after
    /\ (forall p, In p before -> is_named m p n = false)
    /\ is_named m (findStation m n) n = true
    /\ removeStation m n
       = (true, set_items (delete_station m (findStation m n)) (before ++ after)).
Proof.
  intros Hnn. rewrite StationManagerFacts.removeStation_find.
  destruct (findStation_cases m n) as [[Hnull _]|[_ [Hf [Hnamed _]]]];
    [contradiction|].
  rewrite Hf.
  destruct (StationManagerFacts.find_first_split _ _ _ Hf)
    as [before [after [Hl [Hb [_ Hr]]]]].
  exists before, after. rewrite Hr. auto.
Qed.

(** X11.  [removeStation] answers false and changes nothing when the name does
    not resolve.  When it does, the answer is true, the sequence loses
    exactly the entry the name resolved to, that station and the dishes of
    its roster are deleted, and no station object is modified. *)
Theorem removeStation_effect (m : t) (n : string) :
  (findStation m n = nullptr -> removeStation m n = (false, m))
  /\ (findStation m n <> nullptr ->
      exists before after,
        items m = before ++ findStation m n :: after
        /\ (forall p, In p before -> is_named m p n = false)
        /\ removeStation m n
           = (true,
              mk (stations m) (before ++ after)
                 (findStation m n :: deleted_stations m)
                 (KitchenStation.dishes_ (stations m (findStation m n))
                  ++ deleted_dishes m))).
Proof.
  split.
  - intros Hnull. rewrite StationManagerFacts.removeStation_find.
    destruct (findStation_cases m n) as [[_ Hf]|[Hnn _]]; [|contradiction].
    now rewrite Hf.
  - intros Hnn.
    destruct (removeStation_run m n Hnn) as [before [after [Hl [Hb [_ Hrun]]]]].
    exists before, after. repeat split; auto.
Qed.

Lemma removeStation_effect_witness :
  removeStation Sample.manager "Fry Station" = (false, Sample.manager).
Proof.
  apply (proj1 (removeStation_effect Sample.manager "Fry Station")). reflexivity.
Defined.

(** X12.  After [removeStation] of a name, every other name resolves as before;
    and the removed name no longer resolves, provided at most one entry of
    the sequence bore it. *)
Theorem removeStation_then_find (m : t) (n : string) :
  (forall n', n' <> n ->
     findStation (snd (removeStation m n)) n' = findStation m n')
  /\ ((count_named m n <= 1)%nat ->
      findStation (snd (removeStation m n)) n = nullptr).
Proof.
  destruct (N.eq_dec (findStation m n) nullptr) as [Hnull|Hnn].
  - rewrite StationManagerFacts.removeStation_find.
    destruct (findStation_cases m n) as [[_ Hf]|[Hnn _]]; [|contradiction].
    rewrite Hf. simpl. split; [reflexivity | intros _; exact Hnull].
  - destruct (removeStation_run m n Hnn) as [before [after [Hl [Hb [Hnamed Hrun]]]]].
    rewrite Hrun. cbn [snd]. split.
    + intros n' Hne.
      rewrite (findStation_same_objects
                 (set_items (delete_station m (findStation m n)) (before ++ after))
                 (set_items m (before ++ after)) n' eq_refl eq_refl).
      rewrite findStation_items, StationManagerFacts.findStation_find, Hl.
      rewrite (StationManagerFacts.find_skips _ before after (findStation m n));
        [reflexivity|].
      now apply (is_named_two_names m _ n).
    + intros Hone.
      rewrite (findStation_same_objects
                 (set_items (delete_station m (findStation m n)) (before ++ after))
                 (set_items m (before ++ after)) n eq_refl eq_refl).
      rewrite findStation_items, StationManagerFacts.find_all_false; [reflexivity|].
      unfold count_named in Hone. rewrite Hl, filter_app in Hone. simpl in Hone.
      rewrite Hnamed, length_app in Hone. simpl in Hone.
      intros p Hp. apply in_app_or in Hp. destruct Hp as [Hp|Hp]; [now apply Hb|].
      apply (StationManagerFacts.filter_none (fun p => is_named m p n) after);
        [|exact Hp].
      destruct (filter (fun p => is_named m p n) after); [reflexivity|].
      simpl in Hone. lia.
Qed.

Lemma removeStation_then_find_witness :
  findStation (snd (removeStation Sample.manager "Prep Station")) "Prep Station"
  = nullptr.
Proof.
  apply (proj2 (removeStation_then_find Sample.manager "Prep Station")).
  vm_compute. lia.
Defined.



(** *** moveStationToFront *)

Lemma moveStationToFront_run (m : t) (X : string) :
  moveStationToFront m X
  = match find (fun p => is_named m p X) (items m) with
    | Some p =>
        (true, set_items m (p :: remove_first (fun p => is_named m p X) (items m)))
    | None => (false, m)
    end.
Proof.
  apply (StationManagerFacts.moveStationToFront_loop_find m X (items m) []).
  reflexivity.
Qed.

(** X14.  Moving a station to the front a second time changes nothing: the second
    call gives the same answer and the same manager as the first. *)
Theorem moveStationToFront_idempotent (m : t) (X : string) :
  moveStationToFront (snd (moveStationToFront m X)) X = moveStationToFront m X.
Proof.
  rewrite (moveStationToFront_run m X).
  destruct (find (fun p => is_named m p X) (items m)) as [st|] eqn:Hf; cbn [snd].
  - rewrite moveStationToFront_run.
    change (items (set_items m (st :: remove_first (fun p => is_named m p X) (items m))))
      with (st :: remove_first (fun p => is_named m p X) (items m)).
    change (fun p => is_named
                       (set_items m (st :: remove_first (fun p => is_named m p X) (items m)))
                       p X)
      with (fun p => is_named m p X).
    apply find_some in Hf as Hst. destruct Hst as [_ Hst].
    simpl. rewrite Hst. reflexivity.
  - rewrite moveStationToFront_run, Hf. reflexivity.
Qed.

(** X15.  [moveStationToFront] only reorders: the new sequence is a permutation
    of the old one, no station object changes, and every name, the moved one
    included, resolves to the station it resolved to before. *)
Theorem moveStationToFront_keeps_resolution (m : t) (X : string) :
  let m' := snd (moveStationToFront m X) in
  Permutation (items m') (items m)
  /\ stations m' = stations m
  /\ forall n, findStation m' n = findStation m n.
Proof.
  rewrite moveStationToFront_run.
  destruct (find (fun p => is_named m p X) (items m)) as [st|] eqn:Hf; cbn [snd];
    [|repeat split; apply Permutation_refl].
  destruct (StationManagerFacts.find_first_split _ _ _ Hf)
    as [before [after [Hl [Hb [Hst Hr]]]]].
  rewrite Hr. repeat split.
  - simpl. rewrite Hl. apply Permutation_middle.
  - intros n. rewrite findStation_items, StationManagerFacts.findStation_find, Hl.
    simpl. destruct (is_named m st n) eqn:Hn.
    + assert (n = X) as ->.
      { apply is_named_name in Hn, Hst. congruence. }
      rewrite find_app, (StationManagerFacts.find_all_false _ before Hb).
      simpl. now rewrite Hst.
    + now rewrite StationManagerFacts.find_skips.
Qed.

(** *** The calls delegated to one station *)

Lemma store_frame (m : t) (st : addr) (s : KitchenStation.t) :
  KitchenStation.station_name_ s = KitchenStation.station_name_ (stations m st) ->
  items (store m st s) = items m
  /\ (forall a, a <> st -> stations (store m st s) a = stations m a)
  /\ (forall n, findStation (store m st s) n = findStation m n).
Proof.
  intros Hname. repeat split.
  - intros a Ha. simpl. apply N.eqb_neq in Ha. now rewrite Ha.
  - intros n. rewrite !StationManagerFacts.findStation_find.
    change (items (store m st s)) with (items m).
    rewrite (StationManagerFacts.find_pointwise _ (fun p => is_named m p n));
      [reflexivity|].
    intros p. now apply StationManagerFacts.store_is_named.
Qed.

Lemma assignDish_name (s : KitchenStation.t) (d : addr) :
  KitchenStation.station_name_ (snd (KitchenStation.assignDishToStation s d))
  = KitchenStation.station_name_ s.
Proof.
  unfold KitchenStation.assignDishToStation.
  destruct (KitchenStation.already_assigned _ _); reflexivity.
Qed.

Lemma prepareDish_name (D : DishStore) (s : KitchenStation.t) (d : string) :
  KitchenStation.station_name_ (snd (KitchenStation.prepareDish D s d))
  = KitchenStation.station_name_ s.
Proof.
  unfold KitchenStation.prepareDish.
  destruct (negb (KitchenStation.canCompleteOrder D s d)); reflexivity.
Qed.

(** X16.  The manager's [assignDishToStation], [replenishIngredientAtStation]
    and [prepareDishAtStation] answer false and change nothing when the
    station name does not resolve.  In every case they leave the sequence
    as it is, modify no station object other than the one the name resolves
    to, and every name resolves afterwards as it did before. *)
Theorem delegated_calls_frame (D : DishStore) (m : t) (n : string)
        (dish : addr) (i : Ingredient) (d : string) :
  let frame := fun r : bool * t =>
    (findStation m n = nullptr -> r = (false, m))
    /\ items (snd r) = items m
    /\ (forall a, a <> findStation m n -> stations (snd r) a = stations m a)
    /\ (forall n', findStation (snd r) n' = findStation m n') in
  frame (assignDishToStation m n dish)
  /\ frame (replenishIngredientAtStation m n i)
  /\ frame (prepareDishAtStation D m n d).
Proof.
  cbv zeta.
  unfold assignDishToStation, replenishIngredientAtStation, prepareDishAtStation.
  destruct (N.eqb_spec (findStation m n) nullptr) as [Hnull|Hnn]; cbn [negb].
  - repeat split.
  - destruct (store_frame m (findStation m n)
                (snd (KitchenStation.assignDishToStation
                        (stations m (findStation m n)) dish))
                (assignDish_name _ _)) as [Ha1 [Ha2 Ha3]].
    destruct (store_frame m (findStation m n)
                (KitchenStation.replenishStationIngredients
                   (stations m (findStation m n)) i) eq_refl) as [Hr1 [Hr2 Hr3]].
    destruct (store_frame m (findStation m n)
                (snd (KitchenStation.prepareDish D (stations m (findStation m n)) d))
                (prepareDish_name _ _ _)) as [Hp1 [Hp2 Hp3]].
    destruct (KitchenStation.assignDishToStation (stations m (findStation m n)) dish).
    destruct (KitchenStation.prepareDish D (stations m (findStation m n)) d).
    cbn [snd] in *.
    repeat split; auto; intros H; contradiction.
Qed.

Lemma delegated_calls_frame_witness :
  prepareDishAtStation Sample.dishes Sample.manager "Fry Station" "Soup"
  = (false, Sample.manager).
Proof.
  apply (delegated_calls_frame Sample.dishes Sample.manager "Fry Station"
           1%N (Sample.tomato 1 0) "Soup").
  reflexivity.
Defined.

(** *** canCompleteOrder over the sequence *)

Lemma canCompleteOrder_loop_existsb (D : DishStore) (m : t) (d : string)
      (l2 l1 : list addr) :
  items m = l1 ++ l2 ->
  canCompleteOrder_loop D m d (List.length l2) (List.length l1)
  = existsb (fun p => negb (N.eqb p nullptr)
                      && KitchenStation.canCompleteOrder D (stations m p) d) l2.
Proof.
  revert l1. induction l2 as [|p rest IH]; simpl; intros l1 Hitems; [reflexivity|].
  rewrite Hitems at 1. rewrite StationManagerFacts.getEntry_middle.
  destruct (negb (N.eqb p nullptr)
            && KitchenStation.canCompleteOrder D (stations m p) d); [reflexivity|].
  replace (S (List.length l1)) with (List.length (l1 ++ [p]))
    by (rewrite length_app; simpl; lia).
  apply IH. now rewrite <- app_assoc.
Qed.

Lemma canCompleteOrder_some_station (D : DishStore) (m : t) (d : string) :
  canCompleteOrder D m d = true
  <-> exists p, In p (items m) /\ p <> nullptr
                /\ KitchenStation.canCompleteOrder D (stations m p) d = true.
Proof.
  replace (canCompleteOrder D m d)
    with (existsb (fun p => negb (N.eqb p nullptr)
                            && KitchenStation.canCompleteOrder D (stations m p) d)
                  (items m))
    by (symmetry; apply (canCompleteOrder_loop_existsb D m d (items m) []);
        reflexivity).
  rewrite existsb_exists. split.
  - intros [p [Hin H]]. apply andb_true_iff in H. destruct H as [Hp Hc].
    apply negb_true_iff, N.eqb_neq in Hp. eauto.
  - intros [p [Hin [Hp Hc]]]. exists p. split; [exact Hin|].
    apply N.eqb_neq in Hp. now rewrite Hp, Hc.
Qed.

(** X17.  The manager's [canCompleteOrder] answers true exactly when some entry
    of the sequence is a non-null pointer to a station whose own
    [canCompleteOrder] answers true for the dish name; in particular it
    answers false on an empty sequence. *)
Theorem manager_canCompleteOrder_some_station (D : DishStore) (m : t) (d : string) :
  (canCompleteOrder D m d = true
   <-> exists p, In p (items m) /\ p <> nullptr
                 /\ KitchenStation.canCompleteOrder D (stations m p) d = true)
  /\ (items m = [] -> canCompleteOrder D m d = false).
Proof.
  split; [apply canCompleteOrder_some_station|].
  intros H. unfold canCompleteOrder. now rewrite H.
Qed.

Lemma manager_canCompleteOrder_some_station_witness :
  canCompleteOrder Sample.dishes (constructor Sample.objects) "Soup" = false.
Proof.
  apply (proj2 (manager_canCompleteOrder_some_station Sample.dishes
                  (constructor Sample.objects) "Soup")).
  reflexivity.
Defined.

(** X18.  Whenever [prepareDishAtStation] answers true, the manager's
    [canCompleteOrder] answered true for that dish just before. *)
Theorem prepareDishAtStation_needs_feasible (D : DishStore) (m : t) (n d : string) :
  fst (prepareDishAtStation D m n d) = true ->
  canCompleteOrder D m d = true.
Proof.
  unfold prepareDishAtStation.
  destruct (findStation_cases m n) as [[Hnull _]|[Hnn [_ [_ Hin]]]].
  - rewrite Hnull. simpl. discriminate.
  - apply N.eqb_neq in Hnn as Hb. rewrite Hb. cbn [negb].
    unfold KitchenStation.prepareDish.
    destruct (KitchenStation.canCompleteOrder D (stations m (findStation m n)) d)
      eqn:Hcan; simpl; [|discriminate].
    intros _. apply canCompleteOrder_some_station.
    exists (findStation m n). auto.
Qed.

Lemma prepareDishAtStation_needs_feasible_witness :
  canCompleteOrder Sample.dishes Sample.manager "Grilled Chicken Sandwich" = true.
Proof.
  apply (prepareDishAtStation_needs_feasible Sample.dishes Sample.manager
           "Grill Station" "Grilled Chicken Sandwich").
  reflexivity.
Defined.

(** *** mergeStations *)

(** X19.  [mergeStations] answers true exactly when both names resolve and the
    two names differ; when it answers false the manager is unchanged. *)
Theorem mergeStations_succeeds_iff (m : t) (A B : string) :
  (fst (mergeStations m A B) = true
   <-> findStation m A <> nullptr /\ findStation m B <> nullptr /\ A <> B)
  /\ (fst (mergeStations m A B) = false -> snd (mergeStations m A B) = m).
Proof.
  unfold mergeStations.
  destruct (N.eqb_spec (findStation m A) nullptr) as [HA|HA]; cbn [negb andb fst snd].
  { split; [|reflexivity]. split; [discriminate | intros [H _]; contradiction]. }
  destruct (N.eqb_spec (findStation m B) nullptr) as [HB|HB]; cbn [negb andb fst snd].
  { split; [|reflexivity]. split; [discriminate | intros [_ [H _]]; contradiction]. }
  destruct (N.eqb_spec (findStation m A) (findStation m B)) as [HAB|HAB];
    cbn [negb andb fst snd].
  - split; [|reflexivity]. split; [discriminate|].
    intros [_ [_ Hne]]. exfalso. apply Hne.
    destruct (findStation_cases m A) as [[H _]|[_ [_ [HnA _]]]]; [contradiction|].
    destruct (findStation_cases m B) as [[H _]|[_ [_ [HnB _]]]]; [contradiction|].
    apply is_named_name in HnA, HnB. rewrite HAB in HnA. congruence.
  - split; [|discriminate]. split; [|reflexivity].
    intros _. repeat split; auto. intros ->. now apply HAB.
Qed.

Lemma mergeStations_succeeds_iff_witness :
  fst (mergeStations Sample.manager "Grill Station" "Dessert Station") = true.
Proof.
  apply (proj1 (mergeStations_succeeds_iff Sample.manager
                  "Grill Station" "Dessert Station")).
  repeat split; vm_compute; discriminate.
Defined.

Lemma mergeStations_shares_deleted_dishes_witness :
  In 2%N (KitchenStation.dishes_
            (stations (snd (mergeStations Sample.manager "Grill Station" "Prep Station"))
                      (findStation Sample.manager "Grill Station")))
  /\ In 2%N (deleted_dishes
               (snd (mergeStations Sample.manager "Grill Station" "Prep Station"))).
Proof.
  apply (StationManagerFacts.mergeStations_shares_deleted_dishes Sample.manager
           (snd (mergeStations Sample.manager "Grill Station" "Prep Station"))
           "Grill Station" "Prep Station" 2%N).
  - reflexivity.
  - simpl. auto.
Defined.

Lemma assign_all_NoDup (dishes : list addr) (s : KitchenStation.t) :
  NoDup (KitchenStation.dishes_ s) ->
  NoDup (KitchenStation.dishes_ (assign_all s dishes)).
Proof.
  revert s. induction dishes as [|d rest IH]; simpl; intros s H; [exact H|].
  apply IH. now apply KitchenStationMore.assignDish_NoDup.
Qed.

Lemma replenish_all_NoDup (ings : list Ingredient) (s : KitchenStation.t) :
  NoDup (stock_names (KitchenStation.ingredients_stock_ s)) ->
  NoDup (stock_names (KitchenStation.ingredients_stock_ (replenish_all s ings))).
Proof.
  revert s. induction ings as [|i rest IH]; simpl; intros s H; [exact H|].
  apply IH. simpl. now apply KitchenStationFacts.replenish_names_NoDup.
Qed.

(** X21.  A successful [mergeStations] keeps the first station well formed: it
    keeps its name, a roster without a repeated pointer stays so, and a
    stock without a repeated name stays so, whatever the second station
    held. *)
Theorem mergeStations_keeps_station_invariants (m m' : t) (A B : string) :
  mergeStations m A B = (true, m') ->
  let station1 := findStation m A in
  KitchenStation.station_name_ (stations m' station1)
  = KitchenStation.station_name_ (stations m station1)
  /\ (NoDup (KitchenStation.dishes_ (stations m station1)) ->
      NoDup (KitchenStation.dishes_ (stations m' station1)))
  /\ (NoDup (stock_names (KitchenStation.ingredients_stock_ (stations m station1))) ->
      NoDup (stock_names (KitchenStation.ingredients_stock_ (stations m' station1)))).
Proof.
  intros H station1. apply StationManagerFacts.mergeStations_success in H.
  destruct H as [_ [_ [_ Hm']]]. fold station1 in Hm'.
  assert (Hobj : stations m' station1 = merged m station1 (findStation m B)).
  { subst m'. simpl. now rewrite N.eqb_refl. }
  rewrite Hobj. repeat split.
  - apply StationManagerFacts.merged_name.
  - intros Hnd. unfold merged.
    rewrite StationManagerFacts.replenish_all_dishes. now apply assign_all_NoDup.
  - intros Hnd. unfold merged. apply replenish_all_NoDup.
    now rewrite StationManagerFacts.assign_all_stock.
Qed.

Lemma mergeStations_keeps_station_invariants_witness :
  NoDup (KitchenStation.dishes_
           (stations (snd (mergeStations Sample.manager "Grill Station" "Prep Station"))
                     (findStation Sample.manager "Grill Station"))).
Proof.
  apply (mergeStations_keeps_station_invariants Sample.manager
           (snd (mergeStations Sample.manager "Grill Station" "Prep Station"))
           "Grill Station" "Prep Station").
  - reflexivity.
  - simpl. repeat constructor. simpl. tauto.
Defined.

(** X22.  A successful [mergeStations] modifies no station object other than the
    first one, shortens the sequence by exactly one entry, and deletes the
    second station together with the dishes of its roster. *)
Theorem mergeStations_frame (m m' : t) (A B : string) :
  mergeStations m A B = (true, m') ->
  (forall a, a <> findStation m A -> stations m' a = stations m a)
  /\ S (List.length (items m')) = List.length (items m)
  /\ deleted_stations m' = findStation m B :: deleted_stations m
  /\ deleted_dishes m'
     = KitchenStation.dishes_ (stations m (findStation m B)) ++ deleted_dishes m.
Proof.
  intros H. apply StationManagerFacts.mergeStations_success in H.
  destruct H as [_ [HB [HAB Hm']]].
  destruct (findStation_cases m B) as [[Hnull _]|[_ [Hf _]]]; [contradiction|].
  destruct (StationManagerFacts.find_first_split _ _ _ Hf)
    as [before [after [Hl [_ [_ Hr]]]]].
  rewrite Hr in Hm'. subst m'. simpl. repeat split.
  - intros a Ha. apply N.eqb_neq in Ha. now rewrite Ha.
  - rewrite Hl, !length_app. simpl. lia.
  - destruct (N.eqb_spec (findStation m B) (findStation m A)) as [Heq|_];
      [now contradiction HAB | reflexivity].
Qed.

Lemma mergeStations_frame_witness :
  deleted_stations (snd (mergeStations Sample.manager "Grill Station" "Prep Station"))
  = findStation Sample.manager "Prep Station" :: deleted_stations Sample.manager.
Proof.
  apply (mergeStations_frame Sample.manager
           (snd (mergeStations Sample.manager "Grill Station" "Prep Station"))
           "Grill Station" "Prep Station").
  reflexivity.
Defined.

End StationManagerMore.
